(** * ProcedureDefinitionModel: instrument procedures (SID / STAR)

  A shallow embedding of
  [src/assets/scripts/client/navigationLibrary/Procedure/ProcedureDefinitionModel.js]
  and the properties of it that the specification states.

  Conventions of the embedding:
  - a JavaScript value that may be [undefined] is an [option];
  - a method that may throw returns an [Outcome];
  - a method that assigns to [this] is a [Method]: it maps the object before
    the call to the object after it, paired with the outcome;
  - [console.error] output is the list of lines written;
  - an object used as a map is the list of its own enumerable properties, in
    the order [Object.keys] enumerates them; the names it inherits from
    [Object.prototype] are those of [Obj.prototypeNames]. *)

From Stdlib Require Import String Ascii List ZArith Lia Bool Permutation Sorted.
Import ListNotations.
Local Open Scope string_scope.
Local Open Scope list_scope.

Set Implicit Arguments.

(** ** The fragment of the JavaScript runtime the class relies on *)

Module Js.

(** Every exception of the file is a [TypeError]. Those the source
    constructs carry their message; those the engine raises (a method call
    on [undefined], [reduce] of an empty array, a missing method) have an
    engine-specific message, which is left out. *)
Inductive Exception : Type :=
| TypeError (message : string)
| RuntimeTypeError.

Inductive Outcome (A : Type) : Type :=
| Return (a : A)
| Throw (e : Exception).

Arguments Return {A} a.
Arguments Throw {A} e.

Definition bind {A B : Type} (m : Outcome A) (k : A -> Outcome B) : Outcome B :=
  match m with
  | Return a => k a
  | Throw e => Throw e
  end.

(** [array[i]]: [undefined] outside the array. *)
Definition index {A : Type} (array : list A) (i : Z) : option A :=
  if (i <? 0)%Z then None else nth_error array (Z.to_nat i).

(** [array.length] *)
Definition length {A : Type} (array : list A) : Z := Z.of_nat (List.length array).

(** The rest of a string after its first [n] characters. *)
Fixpoint skip (n : nat) (s : string) : string :=
  match n, s with
  | O, _ => s
  | S n', String _ s' => skip n' s'
  | S _, EmptyString => EmptyString
  end.

Fixpoint indexOfFrom (searchString s : string) (position : Z) : Z :=
  if String.prefix searchString s then position
  else match s with
       | EmptyString => (-1)%Z
       | String _ s' => indexOfFrom searchString s' (position + 1)
       end.

(** [s.indexOf(searchString)]: the position of the first occurrence, or -1. *)
Definition indexOf (s searchString : string) : Z := indexOfFrom searchString s 0.

(** [s.replace(pattern, replacement)] with a string pattern: only the first
    occurrence of the pattern is replaced. *)
Fixpoint replace (s pattern replacement : string) : string :=
  if String.prefix pattern s
  then String.append replacement (skip (String.length pattern) s)
  else match s with
       | EmptyString => EmptyString
       | String c s' => String c (replace s' pattern replacement)
       end.

(** Equality as [SameValueZero] decides it on the values of a type; on
    strings and on [undefined] it is equality of values. *)
Class SameValueZero (A : Type) : Type := {
  sameValueZero : A -> A -> bool;
  sameValueZero_spec : forall x y : A, sameValueZero x y = true <-> x = y
}.

End Js.

Import Js.

Notation "x <- m ;; k" := (Js.bind m (fun x => k))
  (at level 61, m at next level, right associativity).

#[export] Program Instance SameValueZero_string : SameValueZero string :=
  {| sameValueZero := String.eqb |}.
Next Obligation. apply String.eqb_eq. Qed.

Definition option_eqb {A : Type} (eqb : A -> A -> bool) (x y : option A) : bool :=
  match x, y with
  | None, None => true
  | Some a, Some b => eqb a b
  | _, _ => false
  end.

#[export] Program Instance SameValueZero_option (A : Type) `{SameValueZero A}
  : SameValueZero (option A) :=
  {| sameValueZero := option_eqb sameValueZero |}.
Next Obligation.
  destruct x as [a|], y as [b|]; simpl; split; intro E;
    try discriminate; try reflexivity.
- apply sameValueZero_spec in E. now subst.
- apply sameValueZero_spec. now injection E.
Qed.

(** ** The fragment of lodash the class relies on *)

Module Lodash.

Section Uniq.
Context {A : Type} `{SameValueZero A}.

Definition includes (array : list A) (value : A) : bool :=
  existsb (sameValueZero value) array.

(** The loop of [_.uniq]: a value is pushed on the result unless the result
    already includes it, so the first occurrence of every value is kept, in
    the order of the array. *)
Fixpoint uniq_loop (result array : list A) : list A :=
  match array with
  | [] => result
  | value :: rest =>
      if includes result value
      then uniq_loop result rest
      else uniq_loop (result ++ [value]) rest
  end.

Definition _uniq (array : list A) : list A := uniq_loop [] array.
End Uniq.

(** [_.map(array, iteratee)] with an iteratee that may throw: the first
    exception ends the iteration. *)
Fixpoint _map {A B : Type} (array : list A) (iteratee : A -> Outcome B)
  : Outcome (list B) :=
  match array with
  | [] => Return []
  | x :: rest =>
      y <- iteratee x ;;
      ys <- _map rest iteratee ;;
      Return (y :: ys)
  end.

(** [_.forEach(object, iteratee)]: the iteratee is called on the value of
    every own enumerable property, in enumeration order. The iteratees of the
    class update a variable of the enclosing scope, threaded here as [s], and
    never return [false], so the iteration is never cut short. *)
Fixpoint _forEach {V S : Type} (object : list (string * V))
  (iteratee : V -> S -> Outcome S) (s : S) : Outcome S :=
  match object with
  | [] => Return s
  | (_, value) :: rest =>
      s' <- iteratee value s ;;
      _forEach rest iteratee s'
  end.

End Lodash.

Import Lodash.

(** ** Objects used as maps *)

Module Obj.

Definition t (V : Type) : Type := list (string * V).

(** [Object.keys(object)] *)
Definition keys {V : Type} (object : t V) : list string := map fst object.

(** Whether [key] is an own property: [Object.keys(object)] includes it. *)
Definition has {V : Type} (key : string) (object : t V) : bool :=
  existsb (String.eqb key) (keys object).

(** The own property [key] of the object, if there is one. *)
Fixpoint get {V : Type} (object : t V) (key : string) : option V :=
  match object with
  | [] => None
  | (k, v) :: rest => if String.eqb key k then Some v else get rest key
  end.

(** The names an object of the airport data finds on [Object.prototype]:
    its methods, and the accessor [__proto__]. *)
Definition prototypeNames : list string :=
  ["constructor"; "__defineGetter__"; "__defineSetter__"; "hasOwnProperty";
   "__lookupGetter__"; "__lookupSetter__"; "isPrototypeOf";
   "propertyIsEnumerable"; "toString"; "valueOf"; "__proto__";
   "toLocaleString"].

Definition inherits (key : string) : bool :=
  existsb (String.eqb key) prototypeNames.

(** [key in object]: an own property, or a name found on the prototype. *)
Definition isIn {V : Type} (key : string) (object : t V) : bool :=
  has key object || inherits key.

(** What [object[key]] is: the value of an own property; else what the
    prototype has under that name (a method, or for [__proto__] the
    prototype itself); else [undefined]. *)
Inductive Member (V : Type) : Type :=
| Own (value : V)
| Inherited
| Missing.

Arguments Own {V} value.
Arguments Inherited {V}.
Arguments Missing {V}.

(** [object[key]] *)
Definition member {V : Type} (object : t V) (key : string) : Member V :=
  match get object key with
  | Some value => Own value
  | None => if inherits key then Inherited else Missing
  end.

(** The array index a property key stands for, if any: a canonical decimal
    numeral (no sign, no leading zero) below 2^32 - 1. *)
Definition digit (c : ascii) : option N :=
  let n := N_of_ascii c in
  if ((48 <=? n) && (n <=? 57))%N then Some (n - 48)%N else None.

Fixpoint numeral (s : string) (value : N) : option N :=
  match s with
  | EmptyString => Some value
  | String c s' =>
      match digit c with
      | Some d => numeral s' (10 * value + d)%N
      | None => None
      end
  end.

Definition arrayIndex (key : string) : option N :=
  match key with
  | EmptyString => None
  | String c rest =>
      if Ascii.eqb c "0" then
        match rest with EmptyString => Some 0%N | _ => None end
      else
        match numeral key 0 with
        | Some n => if (n <? 2 ^ 32 - 1)%N then Some n else None
        | None => None
        end
  end.

Definition isArrayIndex (key : string) : bool :=
  match arrayIndex key with Some _ => true | None => false end.

(** The assignment of a value to an own property that is there. *)
Fixpoint assign {V : Type} (object : t V) (key : string) (value : V) : t V :=
  match object with
  | [] => []
  | (k, v) :: rest =>
      if String.eqb key k then (k, value) :: rest
      else (k, v) :: assign rest key value
  end.

(** One [key: value] of an object literal or of a JSON text: a new property
    is created after the properties there are; a key that is there keeps its
    place and takes the new value. *)
Definition define {V : Type} (object : t V) (property : string * V) : t V :=
  if has (fst property) object
  then assign object (fst property) (snd property)
  else object ++ [property].

(** The properties of an object written as [key: value] pairs, in the order
    of their creation. *)
Definition created {V : Type} (insertions : list (string * V)) : t V :=
  fold_left define insertions [].

(** Insertion of a property among properties sorted by ascending index. *)
Fixpoint insertByIndex {V : Type} (property : string * V) (sorted : t V) : t V :=
  match sorted with
  | [] => [property]
  | p :: rest =>
      match arrayIndex (fst property), arrayIndex (fst p) with
      | Some i, Some j =>
          if (i <? j)%N then property :: sorted
          else p :: insertByIndex property rest
      | _, _ => p :: insertByIndex property rest
      end
  end.

Definition sortByIndex {V : Type} (properties : t V) : t V :=
  fold_right insertByIndex [] properties.

(** The object written as [key: value] pairs in the given order, as
    [Object.keys] enumerates it: the properties whose keys are array indices
    come first, in ascending order of the index, and the other properties
    follow in the order of their creation. *)
Definition fromInsertions {V : Type} (insertions : list (string * V)) : t V :=
  let properties := created insertions in
  sortByIndex (filter (fun p => isArrayIndex (fst p)) properties)
  ++ filter (fun p => negb (isArrayIndex (fst p))) properties.

End Obj.

(** [_.map(object[key], iteratee)]: the iteratee is called on the elements of
    an own segment. What the prototype provides has no enumerable property of
    its own, and [undefined] has none either: for both [_.map] returns [[]]
    without calling the iteratee. *)
Definition _map_member {A B : Type} (value : Obj.Member (list A))
  (iteratee : A -> Outcome B) : Outcome (list B) :=
  match value with
  | Obj.Own array => _map array iteratee
  | Obj.Inherited => Return []
  | Obj.Missing => Return []
  end.


(** ** The procedure data *)

(** A fix descriptor of the airport file: a fix name, or an array whose first
    element is the fix name and whose other elements are restrictions. *)
Inductive FixDescriptor : Type :=
| FixString (fixName : string)
| FixArray (restrictedFix : list string).

(** An element of the [draw] array: a line segment (an array of fix names),
    or, in a file that does not follow the format, a fix name. *)
Inductive DrawElement : Type :=
| Segment (lineSegment : list string)
| Token (fixName : string).

(** [_.isArray] on the values the class passes to it *)
Class IsArray (A : Type) : Type := { _isArray : A -> bool }.

#[export] Instance IsArray_FixDescriptor : IsArray FixDescriptor :=
  {| _isArray := fun v => match v with FixArray _ => true | FixString _ => false end |}.

#[export] Instance IsArray_DrawElement : IsArray DrawElement :=
  {| _isArray := fun v => match v with Segment _ => true | Token _ => false end |}.

#[export] Instance IsArray_undefined (A : Type) `{IsArray A} : IsArray (option A) :=
  {| _isArray := fun v => match v with Some a => _isArray a | None => false end |}.

(** The JSON data of one procedure in the airport file, with the fields the
    airport format gives it. Of [rwy], [exitPoints] and [entryPoints] a
    procedure reads the two its type names; data in which a field that is
    read is missing (the field would be [undefined]) is not represented. *)
Module RawData.
Record t : Type := {
  body : list FixDescriptor;
  draw : list DrawElement;
  icao : string;
  name : string;
  rwy : Obj.t (list FixDescriptor);
  exitPoints : Obj.t (list FixDescriptor);
  entryPoints : Obj.t (list FixDescriptor)
}.
End RawData.

(** Modelled from the spec: the [PROCEDURE_TYPE] enum of
    [constants/aircraftConstants], which is not part of the sources at hand;
    the specification names its two members, SID and STAR. *)
Module PROCEDURE_TYPE.
Definition SID : string := "SID".
Definition STAR : string := "STAR".
End PROCEDURE_TYPE.

(** ** The class *)

Record ProcedureDefinitionModel : Type := {
  _body : list FixDescriptor;
  _draw : list DrawElement;
  _entryPoints : Obj.t (list FixDescriptor);
  _exitPoints : Obj.t (list FixDescriptor);
  _icao : string;
  _name : string;
  _procedureType : string
}.

(** A method that assigns to [this]. *)
Definition Method (A : Type) : Type :=
  ProcedureDefinitionModel -> ProcedureDefinitionModel * Outcome A.

(** Assignments [this._field = v] *)
Definition set_body v (this : ProcedureDefinitionModel) :=
  {| _body := v; _draw := _draw this; _entryPoints := _entryPoints this;
     _exitPoints := _exitPoints this; _icao := _icao this; _name := _name this;
     _procedureType := _procedureType this |}.

Definition set_draw v (this : ProcedureDefinitionModel) :=
  {| _body := _body this; _draw := v; _entryPoints := _entryPoints this;
     _exitPoints := _exitPoints this; _icao := _icao this; _name := _name this;
     _procedureType := _procedureType this |}.

Definition set_entryPoints v (this : ProcedureDefinitionModel) :=
  {| _body := _body this; _draw := _draw this; _entryPoints := v;
     _exitPoints := _exitPoints this; _icao := _icao this; _name := _name this;
     _procedureType := _procedureType this |}.

Definition set_exitPoints v (this : ProcedureDefinitionModel) :=
  {| _body := _body this; _draw := _draw this; _entryPoints := _entryPoints this;
     _exitPoints := v; _icao := _icao this; _name := _name this;
     _procedureType := _procedureType this |}.

Definition set_icao v (this : ProcedureDefinitionModel) :=
  {| _body := _body this; _draw := _draw this; _entryPoints := _entryPoints this;
     _exitPoints := _exitPoints this; _icao := v; _name := _name this;
     _procedureType := _procedureType this |}.

Definition set_name v (this : ProcedureDefinitionModel) :=
  {| _body := _body this; _draw := _draw this; _entryPoints := _entryPoints this;
     _exitPoints := _exitPoints this; _icao := _icao this; _name := v;
     _procedureType := _procedureType this |}.

Definition set_procedureType v (this : ProcedureDefinitionModel) :=
  {| _body := _body this; _draw := _draw this; _entryPoints := _entryPoints this;
     _exitPoints := _exitPoints this; _icao := _icao this; _name := _name this;
     _procedureType := v |}.

(** *** Getters *)

Definition draw (this : ProcedureDefinitionModel) := _draw this.
Definition icao (this : ProcedureDefinitionModel) := _icao this.
Definition name (this : ProcedureDefinitionModel) := _name this.
Definition procedureType (this : ProcedureDefinitionModel) := _procedureType this.

(** *** Lifecycle *)

Definition _initEntriesAndExitsForSid (data : RawData.t)
  : Method ProcedureDefinitionModel := fun this =>
  let this := set_entryPoints (RawData.rwy data) this in
  let this := set_exitPoints (RawData.exitPoints data) this in
  (this, Return this).

Definition _initEntriesAndExitsForStar (data : RawData.t)
  : Method ProcedureDefinitionModel := fun this =>
  let this := set_entryPoints (RawData.entryPoints data) this in
  let this := set_exitPoints (RawData.rwy data) this in
  (this, Return this).

Definition init (procedureType : string) (data : RawData.t)
  : Method ProcedureDefinitionModel := fun this =>
  let this := set_body (RawData.body data) this in
  let this := set_draw (RawData.draw data) this in
  let this := set_icao (RawData.icao data) this in
  let this := set_name (RawData.name data) this in
  let this := set_procedureType procedureType this in
  if String.eqb (_procedureType this) PROCEDURE_TYPE.SID then
    _initEntriesAndExitsForSid data this
  else if String.eqb (_procedureType this) PROCEDURE_TYPE.STAR then
    _initEntriesAndExitsForStar data this
  else
    (this, Throw (TypeError
       (String.append "Expected procedure definition with known type, "
       (String.append "but received unknown type '"
       (String.append (_procedureType this) "'"))))).

Definition reset : Method ProcedureDefinitionModel := fun this =>
  let this := set_body [] this in
  let this := set_draw [] this in
  let this := set_entryPoints [] this in
  let this := set_exitPoints [] this in
  let this := set_icao "" this in
  let this := set_name "" this in
  let this := set_procedureType "" this in
  (this, Return this).

(** [new ProcedureDefinitionModel(procedureType, data)]: the object is the
    result only when no statement of the constructor throws. *)
Definition constructor (procedureType : string) (data : option RawData.t)
  : Outcome ProcedureDefinitionModel :=
  match data with
  | None =>
      Throw (TypeError "Expected valid procedure data, but received 'undefined'")
  | Some data =>
      let this :=
        {| _body := []; _draw := []; _entryPoints := []; _exitPoints := [];
           _icao := ""; _name := ""; _procedureType := "" |} in
      let (this, completion) := init procedureType data this in
      _ <- completion ;;
      Return this
  end.

(** *** Queries *)

Section Queries.

(** The external collaborators: the class of waypoints with its constructor
    (fix descriptor in, waypoint out), and lodash's [_.random(lower, upper)]. *)
Variable ProcedureWaypointModel : Type.
Variable new_ProcedureWaypointModel : FixDescriptor -> ProcedureWaypointModel.
Variable _random : Z -> Z -> Z.

(** [console.error] lines written by a call, oldest first *)
Definition Console : Type := list string.

Definition _getFixNameFromRestrictedFixArray (restrictedFix : FixDescriptor)
  : Outcome (option string) :=
  let restrictedFix : option string :=
    match restrictedFix with
    | FixArray array => Js.index array 0
    | FixString fixName => Some fixName
    end in
  match restrictedFix with
  | None => Throw RuntimeTypeError
  | Some restrictedFix =>
      if negb (Js.indexOf restrictedFix "#" =? -1)%Z then Return None
      else Return (Some (Js.replace (Js.replace restrictedFix "^" "") "@" ""))
  end.

Definition _getFixNamesFromBody (this : ProcedureDefinitionModel)
  : Outcome (list (option string)) :=
  _map (_body this) (fun restrictedFix =>
    _getFixNameFromRestrictedFixArray restrictedFix).

(** [fixList.concat(lineSegment)]: an array argument is spread, any other
    value is appended. *)
Definition Array_concat (fixList : list string) (lineSegment : DrawElement) : list string :=
  match lineSegment with
  | Segment fixNames => fixList ++ fixNames
  | Token fixName => fixList ++ [fixName]
  end.

(** [reduce] without an initial value starts from the first element and
    throws on an empty array; when the first element is a string, so is the
    reduction, and a string has no [map]. *)
Definition _getFixNamesFromDraw (this : ProcedureDefinitionModel)
  : Outcome (list string) :=
  match _draw this with
  | [] => Throw RuntimeTypeError
  | Token _ :: _ => Throw RuntimeTypeError
  | Segment first :: rest =>
      let drawFixNames := fold_left Array_concat rest first in
      let drawFixNamesWithoutAsterisks :=
        map (fun fixName => Js.replace fixName "*" "") drawFixNames in
      Return drawFixNamesWithoutAsterisks
  end.

Definition _getFixNamesFromEntries (this : ProcedureDefinitionModel)
  : Outcome (list (option string)) :=
  fixNames <- _forEach (_entryPoints this) (fun segment fixNames =>
      fixesInSegment <- _map segment (fun restrictedFix =>
        _getFixNameFromRestrictedFixArray restrictedFix) ;;
      Return (fixNames ++ fixesInSegment)) [] ;;
  Return (_uniq fixNames).

Definition _getFixNamesFromExits (this : ProcedureDefinitionModel)
  : Outcome (list (option string)) :=
  fixNames <- _forEach (_exitPoints this) (fun segment fixNames =>
      fixesInSegment <- _map segment (fun restrictedFix =>
        _getFixNameFromRestrictedFixArray restrictedFix) ;;
      Return (fixNames ++ fixesInSegment)) [] ;;
  Return (_uniq fixNames).

Definition getAllFixNamesInUse (this : ProcedureDefinitionModel)
  : Outcome (list (option string)) :=
  if negb (_isArray (Js.index (_draw this) 0)) then
    Throw (TypeError
      (String.append "Invalid data set in draw segment of the "
      (String.append (_icao this)
      (String.append " procedure. Expected a 2D "
      (String.append "array: `[[FIXXA, FIXXB*], [FIXXC, FIXXD*]]`. Please see airport documentation for more information "
       "(https://github.com/openscope/openscope/blob/develop/documentation/airport-format.md#sids).")))))
  else
    entryFixNames <- _getFixNamesFromEntries this ;;
    bodyFixNames <- _getFixNamesFromBody this ;;
    exitFixNames <- _getFixNamesFromExits this ;;
    drawFixNames <- _getFixNamesFromDraw this ;;
    let allFixNames :=
      entryFixNames ++ bodyFixNames ++ exitFixNames ++ map Some drawFixNames in
    let uniqueFixNames := _uniq allFixNames in
    Return uniqueFixNames.

Definition getRandomExitPoint (this : ProcedureDefinitionModel)
  : Outcome (option string) :=
  let exitNames := Obj.keys (_exitPoints this) in
  let maxIndex := (Js.length exitNames - 1)%Z in
  let randomIndex := _random 0 maxIndex in
  Return (Js.index exitNames randomIndex).

Definition _generateWaypointsForBody (this : ProcedureDefinitionModel)
  : Outcome (list ProcedureWaypointModel) :=
  _map (_body this) (fun waypoint => Return (new_ProcedureWaypointModel waypoint)).

Definition _generateWaypointsForEntry (this : ProcedureDefinitionModel)
  (entryPoint : string) : Outcome (list ProcedureWaypointModel) :=
  if negb (Obj.isIn entryPoint (_entryPoints this)) then
    Throw (TypeError
      (String.append "Expected valid entry of "
      (String.append (_icao this)
      (String.append ", but received " entryPoint))))
  else
    _map_member (Obj.member (_entryPoints this) entryPoint)
      (fun waypoint => Return (new_ProcedureWaypointModel waypoint)).

Definition _generateWaypointsForExit (this : ProcedureDefinitionModel)
  (exitPoint : string) : Outcome (list ProcedureWaypointModel) :=
  if negb (Obj.isIn exitPoint (_exitPoints this)) then
    Throw (TypeError
      (String.append "Expected valid exit of "
      (String.append (_icao this)
      (String.append ", but received " exitPoint))))
  else
    _map_member (Obj.member (_exitPoints this) exitPoint)
      (fun waypoint => Return (new_ProcedureWaypointModel waypoint)).

(** The result is [undefined] ([None]) after the bare [return] of the two
    guards. *)
Definition getWaypointModelsForEntryAndExit (this : ProcedureDefinitionModel)
  (entry exit : string) : Console * Outcome (option (list ProcedureWaypointModel)) :=
  if negb (Obj.isIn entry (_entryPoints this)) then
    ([String.append "Expected valid entry of "
       (String.append (_icao this) (String.append ", but received " entry))],
     Return None)
  else if negb (Obj.isIn exit (_exitPoints this)) then
    ([String.append "Expected valid exit of "
       (String.append (_icao this) (String.append ", but received " exit))],
     Return None)
  else
    ([],
     entryWaypointModels <- _generateWaypointsForEntry this entry ;;
     bodyWaypointModels <- _generateWaypointsForBody this ;;
     exitWaypointModels <- _generateWaypointsForExit this exit ;;
     Return (Some (entryWaypointModels ++ bodyWaypointModels ++ exitWaypointModels))).

Definition hasEntry (this : ProcedureDefinitionModel) (entryName : string) : bool :=
  Obj.isIn entryName (_entryPoints this).

Definition hasExit (this : ProcedureDefinitionModel) (exitName : string) : bool :=
  Obj.isIn exitName (_exitPoints this).

End Queries.

(** ** Notions the specification uses *)

Section FirstOccurrences.
Context {A : Type} `{SameValueZero A}.

(** The deduplication of a sequence that preserves first-occurrence order:
    the head stays, and is removed from the deduplicated tail. *)
Fixpoint first_occurrences (l : list A) : list A :=
  match l with
  | [] => []
  | x :: rest =>
      x :: filter (fun y => negb (sameValueZero x y)) (first_occurrences rest)
  end.
End FirstOccurrences.

(** Keys that are array indices, compared by their index. *)
Definition indexLe (key key' : string) : Prop :=
  match Obj.arrayIndex key, Obj.arrayIndex key' with
  | Some i, Some j => (i <= j)%N
  | _, _ => False
  end.

(** How often a character occurs in a string. *)
Fixpoint occurrences (c : ascii) (s : string) : nat :=
  match s with
  | EmptyString => 0
  | String a s' => (if Ascii.eqb a c then 1 else 0) + occurrences c s'
  end.

(** A string with every occurrence of a character stripped. *)
Fixpoint strip_every (c : ascii) (s : string) : string :=
  match s with
  | EmptyString => EmptyString
  | String a s' =>
      if Ascii.eqb a c then strip_every c s' else String a (strip_every c s')
  end.

(** A string without its last character when that character is [c]. *)
Fixpoint strip_trailing (c : ascii) (s : string) : string :=
  match s with
  | EmptyString => EmptyString
  | String a EmptyString => if Ascii.eqb a c then EmptyString else s
  | String a s' => String a (strip_trailing c s')
  end.

(** The name portion of a fix descriptor: the first element of an array, the
    string itself otherwise. *)
Definition namePortion (d : FixDescriptor) : option string :=
  match d with
  | FixString fixName => Some fixName
  | FixArray array => hd_error array
  end.

(** All descriptors of the segments of an entry or exit map, in the order of
    the keys. *)
Definition descriptorsOf (object : Obj.t (list FixDescriptor)) : list FixDescriptor :=
  List.concat (map snd object).

(** All tokens of a [draw] array, in order. *)
Definition drawTokens (draw : list DrawElement) : list string :=
  flat_map (fun element =>
    match element with
    | Segment fixNames => fixNames
    | Token fixName => [fixName]
    end) draw.

(** A descriptor is well formed when it has a name portion. *)
Definition wellFormedDescriptor (d : FixDescriptor) : bool :=
  match namePortion d with Some _ => true | None => false end.

(** A procedure is well formed when the first element of [draw] is a line
    segment and every descriptor of its entries, body and exits has a name. *)
Definition wellFormed (this : ProcedureDefinitionModel) : bool :=
  _isArray (Js.index (_draw this) 0)
  && forallb wellFormedDescriptor (descriptorsOf (_entryPoints this))
  && forallb wellFormedDescriptor (_body this)
  && forallb wellFormedDescriptor (descriptorsOf (_exitPoints this)).

(** ** Example data *)

(** The departure of the specification's example: one runway, one exit and a
    body of one fix. *)
Definition sid_example (icao name : string) (draw : list DrawElement)
  (entryPoints : Obj.t (list FixDescriptor)) : RawData.t :=
  {| RawData.body := [FixString "C1"];
     RawData.draw := draw;
     RawData.icao := icao;
     RawData.name := name;
     RawData.rwy := [("25L", [FixString "A1"])];
     RawData.exitPoints := [("NORTH", [FixString "B1"; FixString "B2"])];
     RawData.entryPoints := entryPoints |}.

(** A departure whose body ends with a fly-heading directive. *)
Definition vector_example : RawData.t :=
  {| RawData.body := [FixArray ["FIXA"; "A100"]; FixString "FIX#HDG"];
     RawData.draw := [Segment ["FIXA"; "FIXB*"]];
     RawData.icao := "VEC1";
     RawData.name := "Vector One";
     RawData.rwy := [("25L", [FixString "^FIXA"])];
     RawData.exitPoints := [("FIXB", [FixString "@FIXB"])];
     RawData.entryPoints := [] |}.

(** An arrival, with restrictions, repeated fixes and draw-only fixes. *)
Definition star_example : RawData.t :=
  {| RawData.body := [FixArray ["^MISEN"; "A240"]; FixString "CLARR"];
     RawData.draw := [Segment ["DAG"; "MISEN"; "CLARR*"]; Segment ["CLARR"; "SKEBR*"]];
     RawData.icao := "KEPEC1";
     RawData.name := "Kepec One";
     RawData.rwy := [("19L", [FixString "CLARR"; FixString "@SKEBR"]);
                     ("25L", [FixString "CLARR"; FixString "RELIN"])];
     RawData.exitPoints := [];
     RawData.entryPoints := [("DAG", [FixString "DAG"; FixString "MISEN"]);
                             ("TNP", [FixString "TNP"; FixString "MISEN"])] |}.

(** The runways of an airport, written in this order: "09" is no array index
    (it has a leading zero), "27" is one. *)
Definition runway_exits : list (string * list FixDescriptor) :=
  [("09", [FixString "NINER"]); ("27", [FixString "SEVEN"])].

(** The object [new ProcedureDefinitionModel('STAR', star_example)]. *)
Definition star_model : ProcedureDefinitionModel :=
  {| _body := RawData.body star_example;
     _draw := RawData.draw star_example;
     _entryPoints := RawData.entryPoints star_example;
     _exitPoints := RawData.rwy star_example;
     _icao := RawData.icao star_example;
     _name := RawData.name star_example;
     _procedureType := PROCEDURE_TYPE.STAR |}.

(** ** The names a procedure is to collect *)

(** A string without the first occurrence of a character. *)
Fixpoint remove_first (c : ascii) (s : string) : string :=
  match s with
  | EmptyString => EmptyString
  | String a s' => if Ascii.eqb a c then s' else String a (remove_first c s')
  end.

(** The bare name of a fix: the name without its first '^' and without its
    first '@'. *)
Definition bareName (fixName : string) : string :=
  remove_first "@" (remove_first "^" fixName).

(** The bare names of descriptors, one for every descriptor that has a name
    portion, in order. *)
Definition bareNames (descriptors : list FixDescriptor) : list string :=
  flat_map (fun d =>
    match namePortion d with
    | Some fixName => [bareName fixName]
    | None => []
    end) descriptors.

(** A descriptor that is no directive: its name portion has no '#'. *)
Definition noDirective (d : FixDescriptor) : bool :=
  match namePortion d with
  | Some fixName => Nat.eqb (occurrences "#" fixName) 0
  | None => true
  end.

(** A procedure without directives among its entries, body and exits. *)
Definition withoutDirectives (this : ProcedureDefinitionModel) : bool :=
  forallb noDirective (descriptorsOf (_entryPoints this))
  && forallb noDirective (_body this)
  && forallb noDirective (descriptorsOf (_exitPoints this)).

(** ** Descriptors without their restrictions *)

(** A descriptor reduced to its name portion: the restrictions of an array
    are dropped; an array without a name portion is left as it is. *)
Definition withoutRestrictions (d : FixDescriptor) : FixDescriptor :=
  match namePortion d with
  | Some fixName => FixString fixName
  | None => d
  end.

(** A change of descriptors applied to every segment of an entry or exit
    map; the keys and their order stay. *)
Definition mapSegments (f : FixDescriptor -> FixDescriptor)
  (object : Obj.t (list FixDescriptor)) : Obj.t (list FixDescriptor) :=
  map (fun property => (fst property, map f (snd property))) object.

(** A change of descriptors applied to the entries, the body and the exits
    of a procedure. *)
Definition mapDescriptors (f : FixDescriptor -> FixDescriptor)
  (this : ProcedureDefinitionModel) : ProcedureDefinitionModel :=
  set_body (map f (_body this))
    (set_entryPoints (mapSegments f (_entryPoints this))
       (set_exitPoints (mapSegments f (_exitPoints this)) this)).

(** ** Properties of the runtime fragments *)

Section UniqFacts.
Context {A : Type} `{SameValueZero A}.

Lemma sameValueZero_refl (x : A) : sameValueZero x x = true.
Proof. now apply sameValueZero_spec. Qed.

Lemma sameValueZero_false (x y : A) : sameValueZero x y = false <-> x <> y.
Proof.
  split.
  - intros E ->. rewrite sameValueZero_refl in E. discriminate.
  - intro N. destruct (sameValueZero x y) eqn:E; [|reflexivity].
    apply sameValueZero_spec in E. contradiction.
Qed.

Lemma includes_In (l : list A) (x : A) : includes l x = true <-> In x l.
Proof.
  unfold includes. rewrite existsb_exists. split.
  - intros [y [I E]]. apply sameValueZero_spec in E. now subst.
  - intro I. exists x. split; [assumption | apply sameValueZero_refl].
Qed.

Lemma includes_app (l1 l2 : list A) (x : A) :
  includes (l1 ++ l2) x = includes l1 x || includes l2 x.
Proof. apply existsb_app. Qed.

Lemma filter_filter (f g : A -> bool) (l : list A) :
  filter f (filter g l) = filter (fun y => g y && f y) l.
Proof.
  induction l as [|a l IH]; simpl; [reflexivity|].
  destruct (g a); simpl; [destruct (f a)|]; now rewrite IH.
Qed.

Lemma first_occurrences_In (l : list A) (x : A) :
  In x (first_occurrences l) <-> In x l.
Proof.
  induction l as [|a l IH]; simpl; [tauto|].
  rewrite filter_In, IH, negb_true_iff, sameValueZero_false.
  destruct (sameValueZero a x) eqn:E.
  - apply sameValueZero_spec in E. tauto.
  - apply sameValueZero_false in E. tauto.
Qed.

Lemma first_occurrences_NoDup (l : list A) : NoDup (first_occurrences l).
Proof.
  induction l as [|a l IH]; simpl; constructor.
  - rewrite filter_In, sameValueZero_refl. intros [_ E]. discriminate.
  - now apply NoDup_filter.
Qed.

Lemma first_occurrences_fixed (l : list A) : NoDup l -> first_occurrences l = l.
Proof.
  induction 1 as [|a l N _ IH]; simpl; [reflexivity|].
  rewrite IH. f_equal.
  apply forallb_filter_id. apply forallb_forall. intros y I.
  apply negb_true_iff, sameValueZero_false. intros ->. contradiction.
Qed.

Lemma first_occurrences_idempotent (l : list A) :
  first_occurrences (first_occurrences l) = first_occurrences l.
Proof. apply first_occurrences_fixed, first_occurrences_NoDup. Qed.

(** The loop of [_.uniq], started from a result that is already there, adds
    the first occurrences of the values the result does not include. *)
Lemma uniq_loop_spec (array result : list A) :
  uniq_loop result array =
  result ++ filter (fun y => negb (includes result y)) (first_occurrences array).
Proof.
  revert result. induction array as [|a l IH]; intro result; simpl.
  - now rewrite app_nil_r.
  - destruct (includes result a) eqn:E; simpl; rewrite IH, filter_filter.
    + f_equal. apply filter_ext_in. intros y _.
      destruct (sameValueZero a y) eqn:Eay; simpl; [|reflexivity].
      apply sameValueZero_spec in Eay. subst y. now rewrite E.
    + rewrite <- app_assoc. simpl. do 2 f_equal.
      apply filter_ext_in. intros y _.
      rewrite includes_app, negb_orb. unfold includes at 2. simpl.
      rewrite orb_false_r.
      destruct (sameValueZero a y) eqn:Eay.
      * apply sameValueZero_spec in Eay. subst y.
        rewrite sameValueZero_refl. simpl. now rewrite andb_false_r.
      * assert (sameValueZero y a = false) as ->.
        { apply sameValueZero_false. apply sameValueZero_false in Eay. congruence. }
        simpl. now rewrite andb_true_r.
Qed.

Lemma _uniq_first_occurrences (array : list A) :
  _uniq array = first_occurrences array.
Proof.
  unfold _uniq. rewrite uniq_loop_spec. simpl.
  apply forallb_filter_id. now apply forallb_forall.
Qed.

Lemma uniq_loop_first_occurrences (array result : list A) :
  uniq_loop result (first_occurrences array) = uniq_loop result array.
Proof. now rewrite !uniq_loop_spec, first_occurrences_idempotent. Qed.

Lemma uniq_loop_app (l1 l2 result : list A) :
  uniq_loop result (l1 ++ l2) = uniq_loop (uniq_loop result l1) l2.
Proof.
  revert result. induction l1 as [|a l IH]; intro result; simpl; [reflexivity|].
  destruct (includes result a); apply IH.
Qed.

(** Deduplicating the entries and the exits on their own does not change the
    deduplication of the whole. *)
Lemma first_occurrences_steps (E B X D : list A) :
  first_occurrences (first_occurrences E ++ B ++ first_occurrences X ++ D) =
  first_occurrences (E ++ B ++ X ++ D).
Proof.
  rewrite <- (_uniq_first_occurrences (_ ++ B ++ _ ++ D)).
  rewrite <- (_uniq_first_occurrences (E ++ B ++ X ++ D)).
  unfold _uniq. rewrite !uniq_loop_app, !uniq_loop_first_occurrences.
  reflexivity.
Qed.

End UniqFacts.

Section StringFacts.

(** [replace] with a pattern of one character and an empty replacement drops
    the first occurrence of the character. *)
Lemma replace_char_cons (c a : ascii) (s : string) :
  Js.replace (String a s) (String c "") "" =
  if Ascii.eqb a c then s else String a (Js.replace s (String c "") "").
Proof.
  cbn [Js.replace String.prefix String.length Js.skip String.append].
  destruct (ascii_dec c a) as [->|N].
  - rewrite Ascii.eqb_refl. now destruct s.
  - assert (Ascii.eqb a c = false) as -> by (apply Ascii.eqb_neq; congruence).
    reflexivity.
Qed.

Lemma replace_char_nil (c : ascii) : Js.replace "" (String c "") "" = "".
Proof. reflexivity. Qed.

Lemma strip_every_absent (c : ascii) (s : string) :
  occurrences c s = 0 -> strip_every c s = s.
Proof.
  induction s as [|a s IH]; simpl; [reflexivity|].
  destruct (Ascii.eqb a c); simpl; [discriminate|].
  intro O. now rewrite IH.
Qed.

Lemma replace_once_strip_every (c : ascii) (s : string) :
  occurrences c s <= 1 -> Js.replace s (String c "") "" = strip_every c s.
Proof.
  induction s as [|a s IH]; [reflexivity|].
  rewrite replace_char_cons. simpl.
  destruct (Ascii.eqb a c); simpl; intro O.
  - symmetry. apply strip_every_absent. lia.
  - now rewrite IH.
Qed.

Lemma occurrences_strip_every (c : ascii) (s : string) :
  occurrences c (strip_every c s) = 0.
Proof.
  induction s as [|a s IH]; simpl; [reflexivity|].
  destruct (Ascii.eqb a c) eqn:E; simpl; [assumption|].
  now rewrite E, IH.
Qed.

Lemma occurrences_strip_other (c c' : ascii) (s : string) :
  occurrences c (strip_every c' s) <= occurrences c s.
Proof.
  induction s as [|a s IH]; simpl; [lia|].
  destruct (Ascii.eqb a c'); simpl; lia.
Qed.

Lemma occurrences_append (c : ascii) (s t : string) :
  occurrences c (String.append s t) = occurrences c s + occurrences c t.
Proof. induction s as [|a s IH]; simpl; [reflexivity|]. rewrite IH. lia. Qed.

Lemma strip_every_append (c : ascii) (s t : string) :
  strip_every c (String.append s t) =
  String.append (strip_every c s) (strip_every c t).
Proof.
  induction s as [|a s IH]; simpl; [reflexivity|].
  destruct (Ascii.eqb a c); simpl; now rewrite IH.
Qed.

Lemma append_empty_r (s : string) : String.append s "" = s.
Proof. induction s as [|a s IH]; simpl; [reflexivity|]. now rewrite IH. Qed.

(** A character that occurs only at the end of a token is what [replace]
    removes. *)
Lemma replace_trailing (c : ascii) (s : string) :
  occurrences c s = 0 ->
  Js.replace (String.append s (String c "")) (String c "") "" = s.
Proof.
  intro O. rewrite replace_once_strip_every.
  - rewrite strip_every_append, strip_every_absent by assumption.
    simpl. rewrite Ascii.eqb_refl. apply append_empty_r.
  - rewrite occurrences_append, O. simpl. rewrite Ascii.eqb_refl. lia.
Qed.

End StringFacts.

Section MethodFacts.

Lemma has_get {V : Type} (object : Obj.t V) (key : string) :
  Obj.has key object = true -> exists v, Obj.get object key = Some v.
Proof.
  unfold Obj.has, Obj.keys.
  induction object as [|[k v] rest IH]; simpl; [discriminate|].
  destruct (String.eqb key k); simpl; eauto.
Qed.

Lemma has_In {V : Type} (object : Obj.t V) (key : string) :
  Obj.has key object = true <-> In key (Obj.keys object).
Proof.
  unfold Obj.has. rewrite existsb_exists. split.
  - intros [k [I E]]. apply String.eqb_eq in E. now subst.
  - intro I. exists key. split; [assumption | apply String.eqb_refl].
Qed.

Lemma has_isIn {V : Type} (object : Obj.t V) (key : string) :
  Obj.has key object = true -> Obj.isIn key object = true.
Proof. unfold Obj.isIn. now intros ->. Qed.

Lemma isIn_false {V : Type} (object : Obj.t V) (key : string) :
  Obj.isIn key object = false <->
  Obj.has key object = false /\ ~ In key Obj.prototypeNames.
Proof.
  unfold Obj.isIn. rewrite orb_false_iff.
  assert (I : Obj.inherits key = false <-> ~ In key Obj.prototypeNames).
  { unfold Obj.inherits. split.
    - intros E H. assert (T : existsb (String.eqb key) Obj.prototypeNames = true).
      { apply existsb_exists. exists key. split; [exact H | apply String.eqb_refl]. }
      congruence.
    - intro N. destruct (existsb _ _) eqn:E; [|reflexivity].
      apply existsb_exists in E. destruct E as [k [Ik Ek]].
      apply String.eqb_eq in Ek. subst k. contradiction. }
  tauto.
Qed.

Lemma isIn_true {V : Type} (object : Obj.t V) (key : string) :
  Obj.isIn key object = true <->
  In key (Obj.keys object) \/ In key Obj.prototypeNames.
Proof.
  unfold Obj.isIn. rewrite orb_true_iff, has_In.
  assert (I : Obj.inherits key = true <-> In key Obj.prototypeNames).
  { unfold Obj.inherits. rewrite existsb_exists. split.
    - intros [k [Ik Ek]]. apply String.eqb_eq in Ek. now subst.
    - intro H. exists key. split; [exact H | apply String.eqb_refl]. }
  tauto.
Qed.

Lemma member_Own {V : Type} (object : Obj.t V) (key : string) (value : V) :
  Obj.get object key = Some value -> Obj.member object key = Obj.Own value.
Proof. unfold Obj.member. now intros ->. Qed.

Lemma bind_returns {A B : Type} (m : Outcome A) (a : A) (k : A -> Outcome B)
  (r : Outcome B) :
  m = Return a -> k a = r -> Js.bind m k = r.
Proof. now intros -> <-. Qed.

(** [_.map] with an iteratee that never throws is the map of lists. *)
Lemma _map_total {A B : Type} (f : A -> B) (array : list A) :
  _map array (fun x => Return (f x)) = Return (map f array).
Proof. induction array as [|a l IH]; simpl; [reflexivity|]. now rewrite IH. Qed.

(** [_.map] returns when the iteratee returns on every element, and relates
    every element to its result, in order. *)
Lemma _map_Forall2 {A B : Type} (f : A -> Outcome B) (array : list A) :
  Forall (fun x => exists y, f x = Return y) array ->
  exists ys, _map array f = Return ys /\
             Forall2 (fun x y => f x = Return y) array ys.
Proof.
  induction 1 as [|a l [y Ey] _ [ys [E F]]]; simpl.
  - exists []. split; [reflexivity | constructor].
  - exists (y :: ys). rewrite Ey, E. simpl. split; [reflexivity|].
    now constructor.
Qed.

(** The [_.forEach] loops of the class append the names of every segment to
    the names collected so far. *)
Lemma _forEach_segments {B : Type} (f : FixDescriptor -> Outcome B)
  (object : Obj.t (list FixDescriptor)) (fixNames : list B) :
  Forall (fun x => exists y, f x = Return y) (descriptorsOf object) ->
  exists names,
    _forEach object (fun segment fixNames =>
      fixesInSegment <- _map segment f ;;
      Return (fixNames ++ fixesInSegment)) fixNames = Return (fixNames ++ names) /\
    Forall2 (fun x y => f x = Return y) (descriptorsOf object) names.
Proof.
  unfold descriptorsOf. revert fixNames.
  induction object as [|[k segment] rest IH]; intros fixNames F; simpl in *.
  - exists []. rewrite app_nil_r. split; [reflexivity | constructor].
  - apply Forall_app in F. destruct F as [Fs Fr].
    destruct (_map_Forall2 f Fs) as [ys [E F2]].
    destruct (IH (fixNames ++ ys) Fr) as [names [E' F2']].
    exists (ys ++ names). rewrite E. simpl. rewrite E', <- app_assoc.
    split; [reflexivity | now apply Forall2_app].
Qed.

Lemma fold_left_Array_concat (rest : list DrawElement) (first : list string) :
  fold_left Array_concat rest first = first ++ drawTokens rest.
Proof.
  revert first. induction rest as [|e rest IH]; intro first; simpl.
  - now rewrite app_nil_r.
  - rewrite IH. destruct e; simpl; now rewrite <- app_assoc.
Qed.

End MethodFacts.

(** ** The procedure definition model against its specification *)

Section ClassFacts.

Lemma _getFixName_namePortion (d : FixDescriptor) (n : string) :
  namePortion d = Some n ->
  _getFixNameFromRestrictedFixArray d =
  if negb (Js.indexOf n "#" =? -1)%Z then Return None
  else Return (Some (Js.replace (Js.replace n "^" "") "@" "")).
Proof.
  destruct d as [s|[|s l]]; simpl; intro E; try discriminate;
    injection E as <-; reflexivity.
Qed.

Lemma wellFormedDescriptor_returns (d : FixDescriptor) :
  wellFormedDescriptor d = true ->
  exists fixName, _getFixNameFromRestrictedFixArray d = Return fixName.
Proof.
  unfold wellFormedDescriptor. destruct (namePortion d) as [n|] eqn:E;
    [intros _ | discriminate].
  rewrite (_getFixName_namePortion d E).
  destruct (negb _); eauto.
Qed.

Lemma wellFormedDescriptors_return (l : list FixDescriptor) :
  forallb wellFormedDescriptor l = true ->
  Forall (fun d => exists fixName,
            _getFixNameFromRestrictedFixArray d = Return fixName) l.
Proof.
  rewrite forallb_forall, Forall_forall. intros W d I.
  apply wellFormedDescriptor_returns, W, I.
Qed.

Lemma _isArray_first_segment (draw : list DrawElement) :
  _isArray (Js.index draw 0) = true ->
  exists first rest, draw = Segment first :: rest.
Proof.
  destruct draw as [|[first|t] rest]; simpl; try discriminate. eauto.
Qed.

End ClassFacts.

Section EnumerationFacts.
Context {V : Type}.

Lemma keys_assign (object : Obj.t V) (key : string) (value : V) :
  Obj.keys (Obj.assign object key value) = Obj.keys object.
Proof.
  unfold Obj.keys. induction object as [|[k v] rest IH]; simpl; [reflexivity|].
  destruct (String.eqb key k); simpl; [reflexivity | now rewrite IH].
Qed.

Lemma keys_define (object : Obj.t V) (property : string * V) :
  Obj.keys (Obj.define object property) =
  if includes (Obj.keys object) (fst property) then Obj.keys object
  else Obj.keys object ++ [fst property].
Proof.
  unfold Obj.define. change (includes (Obj.keys object) (fst property))
    with (Obj.has (fst property) object).
  destruct (Obj.has (fst property) object).
  - apply keys_assign.
  - unfold Obj.keys. now rewrite map_app.
Qed.

Lemma keys_fold_define (insertions : list (string * V)) (object : Obj.t V) :
  Obj.keys (fold_left Obj.define insertions object) =
  uniq_loop (Obj.keys object) (map fst insertions).
Proof.
  revert object. induction insertions as [|p rest IH]; intro object; simpl;
    [reflexivity|].
  rewrite IH, keys_define. now destruct (includes (Obj.keys object) (fst p)).
Qed.

(** The keys of the properties created: every key once, at the place of its
    first insertion. *)
Lemma keys_created (insertions : list (string * V)) :
  Obj.keys (Obj.created insertions) = first_occurrences (map fst insertions).
Proof.
  unfold Obj.created. rewrite keys_fold_define. apply _uniq_first_occurrences.
Qed.

Lemma keys_filter (f : string -> bool) (object : Obj.t V) :
  Obj.keys (filter (fun p => f (fst p)) object) = filter f (Obj.keys object).
Proof.
  unfold Obj.keys. induction object as [|p rest IH]; simpl; [reflexivity|].
  destruct (f (fst p)); simpl; now rewrite IH.
Qed.

Lemma insertByIndex_Permutation (property : string * V) (sorted : Obj.t V) :
  Permutation (Obj.insertByIndex property sorted) (property :: sorted).
Proof.
  induction sorted as [|p rest IH]; simpl; [reflexivity|].
  destruct (Obj.arrayIndex (fst property)) as [i|];
    [destruct (Obj.arrayIndex (fst p)) as [j|]; [destruct (i <? j)%N|]|];
    try reflexivity;
    (rewrite IH; apply perm_swap).
Qed.

Lemma sortByIndex_Permutation (properties : Obj.t V) :
  Permutation (Obj.sortByIndex properties) properties.
Proof.
  unfold Obj.sortByIndex. induction properties as [|p rest IH]; simpl;
    [reflexivity|].
  rewrite insertByIndex_Permutation. now constructor.
Qed.

Lemma insertByIndex_HdRel (property q : string * V) (sorted : Obj.t V) :
  indexLe (fst q) (fst property) ->
  HdRel indexLe (fst q) (Obj.keys sorted) ->
  HdRel indexLe (fst q) (Obj.keys (Obj.insertByIndex property sorted)).
Proof.
  intros R H. destruct sorted as [|p rest]; simpl; [now constructor|].
  apply HdRel_inv in H.
  destruct (Obj.arrayIndex (fst property)) as [i|];
    [destruct (Obj.arrayIndex (fst p)) as [j|]; [destruct (i <? j)%N|]|];
    simpl; now constructor.
Qed.

Lemma insertByIndex_Sorted (property : string * V) (sorted : Obj.t V) :
  Obj.isArrayIndex (fst property) = true ->
  Forall (fun p => Obj.isArrayIndex (fst p) = true) sorted ->
  Sorted indexLe (Obj.keys sorted) ->
  Sorted indexLe (Obj.keys (Obj.insertByIndex property sorted)).
Proof.
  unfold Obj.isArrayIndex. intros Ip F S.
  induction sorted as [|p rest IH]; simpl.
  - repeat constructor.
  - apply Forall_cons_iff in F. destruct F as [Iq F].
    simpl in S. apply Sorted_inv in S. destruct S as [S H].
    destruct (Obj.arrayIndex (fst property)) as [i|] eqn:Ei; [|discriminate].
    destruct (Obj.arrayIndex (fst p)) as [j|] eqn:Ej; [|discriminate].
    destruct (N.ltb_spec i j) as [L|L]; simpl.
    + constructor; [constructor; assumption|].
      constructor. unfold indexLe. rewrite Ei, Ej. lia.
    + constructor; [now apply IH|].
      apply insertByIndex_HdRel; [|exact H].
      unfold indexLe. now rewrite Ei, Ej.
Qed.

Lemma sortByIndex_Sorted (properties : Obj.t V) :
  Forall (fun p => Obj.isArrayIndex (fst p) = true) properties ->
  Sorted indexLe (Obj.keys (Obj.sortByIndex properties)).
Proof.
  unfold Obj.sortByIndex. induction 1 as [|p rest Ip F IH]; simpl.
  - constructor.
  - apply insertByIndex_Sorted; [exact Ip | | exact IH].
    eapply Permutation_Forall; [|exact F].
    symmetry. apply sortByIndex_Permutation.
Qed.

Lemma filter_none {A : Type} (f : A -> bool) (l : list A) :
  forallb (fun x => negb (f x)) l = true -> filter f l = [].
Proof.
  induction l as [|a l IH]; simpl; [reflexivity|].
  intro N. apply andb_prop in N. destruct N as [Na Nl].
  apply negb_true_iff in Na. rewrite Na. now apply IH.
Qed.

(** The keys of an object written as pairs, as [Object.keys] lists them:
    the array indices in ascending order, then the other keys in the order
    of their first insertion. *)
Lemma keys_fromInsertions (insertions : list (string * V)) :
  let inserted := first_occurrences (map fst insertions) in
  exists indices,
    Obj.keys (Obj.fromInsertions insertions) =
      indices ++ filter (fun key => negb (Obj.isArrayIndex key)) inserted /\
    Permutation indices (filter Obj.isArrayIndex inserted) /\
    Sorted indexLe indices /\
    (forallb (fun key => negb (Obj.isArrayIndex key)) inserted = true ->
     Obj.keys (Obj.fromInsertions insertions) = inserted).
Proof.
  intro inserted. unfold Obj.fromInsertions.
  set (properties := Obj.created insertions).
  set (indexed := filter (fun p => Obj.isArrayIndex (fst p)) properties).
  assert (K : Obj.keys properties = inserted) by apply keys_created.
  assert (KI : Obj.keys indexed = filter Obj.isArrayIndex inserted).
  { unfold indexed. now rewrite (keys_filter Obj.isArrayIndex), K. }
  assert (KO : Obj.keys (filter (fun p => negb (Obj.isArrayIndex (fst p))) properties)
               = filter (fun key => negb (Obj.isArrayIndex key)) inserted).
  { now rewrite (keys_filter (fun key => negb (Obj.isArrayIndex key))), K. }
  exists (Obj.keys (Obj.sortByIndex indexed)).
  split; [|split; [|split]].
  - unfold Obj.keys at 1. rewrite map_app. fold (Obj.keys (Obj.sortByIndex indexed)).
    f_equal. exact KO.
  - rewrite <- KI. unfold Obj.keys. apply Permutation_map, sortByIndex_Permutation.
  - apply sortByIndex_Sorted. unfold indexed. apply Forall_forall.
    intros p I. apply filter_In in I. tauto.
  - intro N. unfold Obj.keys at 1. rewrite map_app.
    fold (Obj.keys (Obj.sortByIndex indexed)).
    change (map fst (filter (fun p => negb (Obj.isArrayIndex (fst p))) properties))
      with (Obj.keys (filter (fun p => negb (Obj.isArrayIndex (fst p))) properties)).
    rewrite KO.
    assert (E : filter Obj.isArrayIndex inserted = [])
      by exact (filter_none Obj.isArrayIndex inserted N).
    assert (EI : indexed = []).
    { destruct indexed as [|p rest]; [reflexivity|]. rewrite E in KI. discriminate. }
    rewrite EI. simpl. now apply forallb_filter_id.
Qed.

End EnumerationFacts.

Example arrayIndex_of_keys :
  map Obj.arrayIndex ["0"; "27"; "09"; "25L"; ""; "4294967294"; "4294967295"] =
  [Some 0%N; Some 27%N; None; None; None; Some 4294967294%N; None].
Proof. reflexivity. Qed.

Example keys_of_runway_exits :
  Obj.keys (Obj.fromInsertions runway_exits) = ["27"; "09"].
Proof. reflexivity. Qed.

Example keys_of_mixed_insertions :
  Obj.keys (Obj.fromInsertions
              [("NORTH", 1); ("10", 2); ("2", 3); ("NORTH", 4); ("07R", 5)]) =
  ["2"; "10"; "NORTH"; "07R"].
Proof. reflexivity. Qed.

Example inherited_name_is_in_every_object :
  hasEntry star_model "toString" = true /\
  Obj.has "toString" (_entryPoints star_model) = false.
Proof. split; reflexivity. Qed.

(** C1. For an entry key of the entry points and an exit key of the exit
    points, [getWaypointModelsForEntryAndExit] writes nothing on the console
    and returns the waypoints built by the external constructor from the
    descriptors of the entry segment, then of the body, then of the exit
    segment; their number is the sum of the three lengths. For the departure
    with runway 25L -> A1, exit NORTH -> B1, B2 and body C1, the call with
    ("25L", "NORTH") yields the waypoints of A1, C1, B1, B2 in this order. *)
Theorem C1_waypoints_are_entry_body_exit :
  forall (Waypoint : Type) (new_Waypoint : FixDescriptor -> Waypoint),
  (forall (this : ProcedureDefinitionModel) (entryKey exitKey : string),
     Obj.has entryKey (_entryPoints this) = true ->
     Obj.has exitKey (_exitPoints this) = true ->
     exists entrySeq exitSeq waypoints,
       Obj.get (_entryPoints this) entryKey = Some entrySeq /\
       Obj.get (_exitPoints this) exitKey = Some exitSeq /\
       getWaypointModelsForEntryAndExit new_Waypoint this entryKey exitKey =
         ([], Return (Some waypoints)) /\
       waypoints = map new_Waypoint entrySeq ++ map new_Waypoint (_body this)
                   ++ map new_Waypoint exitSeq /\
       List.length waypoints =
         List.length entrySeq + List.length (_body this) + List.length exitSeq) /\
  (forall icao name draw entryPoints,
     exists this,
       constructor PROCEDURE_TYPE.SID
         (Some (sid_example icao name draw entryPoints)) = Return this /\
       getWaypointModelsForEntryAndExit new_Waypoint this "25L" "NORTH" =
         ([], Return (Some [new_Waypoint (FixString "A1");
                            new_Waypoint (FixString "C1");
                            new_Waypoint (FixString "B1");
                            new_Waypoint (FixString "B2")]))).
Proof.
  intros Waypoint new_Waypoint. split.
  - intros this entryKey exitKey He Hx.
    destruct (has_get _ _ He) as [entrySeq Ge].
    destruct (has_get _ _ Hx) as [exitSeq Gx].
    exists entrySeq, exitSeq. eexists. repeat split; try eassumption.
    + unfold getWaypointModelsForEntryAndExit, _generateWaypointsForEntry,
        _generateWaypointsForExit, _generateWaypointsForBody.
      rewrite (has_isIn _ _ He), (has_isIn _ _ Hx),
        (member_Own _ _ Ge), (member_Own _ _ Gx).
      simpl. rewrite !_map_total. reflexivity.
    + rewrite !length_app, !length_map. lia.
  - intros icao name draw entryPoints. eexists. split; reflexivity.
Qed.

Lemma C1_waypoints_are_entry_body_exit_witness :
  exists waypoints,
    getWaypointModelsForEntryAndExit (fun d => d) star_model "TNP" "25L" =
      ([], Return (Some waypoints)) /\
    List.length waypoints = 2 + 2 + 2.
Proof.
  destruct (proj1 (C1_waypoints_are_entry_body_exit (fun d => d))
              star_model "TNP" "25L" eq_refl eq_refl)
    as [entrySeq [exitSeq [waypoints [Ge [Gx [E [_ L]]]]]]].
  exists waypoints. split; [exact E|].
  injection Ge as <-. injection Gx as <-. exact L.
Defined.

(** C2. Construction without data throws the [TypeError] that reports the
    missing procedure data. With data, a SID gets its entry points from [rwy]
    and its exit points from [exitPoints], a STAR gets its entry points from
    [entryPoints] and its exit points from [rwy] (body, draw, icao and name
    are copied in both cases), and any other procedure type makes the
    construction throw the [TypeError] that reports the unknown type. *)
Theorem C2_construction_by_procedure_type :
  (forall procedureType,
     constructor procedureType None =
     Throw (TypeError "Expected valid procedure data, but received 'undefined'")) /\
  (forall data,
     exists this,
       constructor PROCEDURE_TYPE.SID (Some data) = Return this /\
       _entryPoints this = RawData.rwy data /\
       _exitPoints this = RawData.exitPoints data /\
       _body this = RawData.body data /\ _draw this = RawData.draw data /\
       _icao this = RawData.icao data /\ _name this = RawData.name data /\
       _procedureType this = PROCEDURE_TYPE.SID) /\
  (forall data,
     exists this,
       constructor PROCEDURE_TYPE.STAR (Some data) = Return this /\
       _entryPoints this = RawData.entryPoints data /\
       _exitPoints this = RawData.rwy data /\
       _body this = RawData.body data /\ _draw this = RawData.draw data /\
       _icao this = RawData.icao data /\ _name this = RawData.name data /\
       _procedureType this = PROCEDURE_TYPE.STAR) /\
  (forall procedureType data,
     procedureType <> PROCEDURE_TYPE.SID ->
     procedureType <> PROCEDURE_TYPE.STAR ->
     constructor procedureType (Some data) =
     Throw (TypeError
       (String.append
          "Expected procedure definition with known type, but received unknown type '"
          (String.append procedureType "'")))).
Proof.
  split; [|split; [|split]].
  - reflexivity.
  - intro data. eexists. repeat split.
  - intro data. eexists. repeat split.
  - intros procedureType data NSid NStar.
    unfold constructor, init. simpl.
    apply String.eqb_neq in NSid, NStar. rewrite NSid, NStar. reflexivity.
Qed.

Lemma C2_construction_by_procedure_type_witness :
  "APPROACH" <> PROCEDURE_TYPE.SID /\ "APPROACH" <> PROCEDURE_TYPE.STAR /\
  constructor "APPROACH" (Some star_example) =
  Throw (TypeError
    "Expected procedure definition with known type, but received unknown type 'APPROACH'").
Proof.
  assert (NSid : "APPROACH" <> PROCEDURE_TYPE.SID) by discriminate.
  assert (NStar : "APPROACH" <> PROCEDURE_TYPE.STAR) by discriminate.
  split; [exact NSid | split; [exact NStar |]].
  exact (proj2 (proj2 (proj2 C2_construction_by_procedure_type))
           "APPROACH" star_example NSid NStar).
Defined.

(** C4, as stated, fails at two places. A name that every object inherits
    is not a key of the entry points, yet passes the test of the code:
    for "toString" the public lookup writes nothing and returns an array,
    and the private generator returns [[]] instead of throwing. And when
    both keys are absent, the one line the public lookup writes names the
    entry, not the exit. *)
Lemma C4_inherited_name_counterexample :
  Obj.has "toString" (_entryPoints star_model) = false /\
  getWaypointModelsForEntryAndExit (fun d => d) star_model "toString" "25L" =
    ([], Return (Some [FixArray ["^MISEN"; "A240"]; FixString "CLARR";
                       FixString "CLARR"; FixString "RELIN"])) /\
  _generateWaypointsForEntry (fun d => d) star_model "toString" = Return [] /\
  Obj.has "LAS" (_entryPoints star_model) = false /\
  Obj.has "07R" (_exitPoints star_model) = false /\
  getWaypointModelsForEntryAndExit (fun d => d) star_model "LAS" "07R" =
    (["Expected valid entry of KEPEC1, but received LAS"], Return None).
Proof. repeat split. Qed.

(** C4, amended. A key that is neither a key of the entry points nor a name
    objects inherit makes the public [getWaypointModelsForEntryAndExit]
    write one [console.error] line naming the procedure and the key and
    return [undefined] without throwing, while the private
    [_generateWaypointsForEntry] throws a [TypeError] with the same message.
    A key that is neither a key of the exit points nor an inherited name
    makes [_generateWaypointsForExit] throw the [TypeError] naming the
    procedure and the exit key, and makes the public lookup write one line
    and return [undefined]: the line names the exit key when the entry key
    passes the entry test, and the entry key when it does not (the entry is
    tested first). *)
Theorem C4_soft_public_lookup_hard_private_lookup :
  forall (Waypoint : Type) (new_Waypoint : FixDescriptor -> Waypoint)
         (this : ProcedureDefinitionModel),
  (forall entryKey exitKey,
     Obj.has entryKey (_entryPoints this) = false ->
     ~ In entryKey Obj.prototypeNames ->
     getWaypointModelsForEntryAndExit new_Waypoint this entryKey exitKey =
       ([String.append "Expected valid entry of "
           (String.append (_icao this)
              (String.append ", but received " entryKey))],
        Return None) /\
     _generateWaypointsForEntry new_Waypoint this entryKey =
       Throw (TypeError
         (String.append "Expected valid entry of "
            (String.append (_icao this)
               (String.append ", but received " entryKey))))) /\
  (forall entryKey exitKey,
     Obj.has exitKey (_exitPoints this) = false ->
     ~ In exitKey Obj.prototypeNames ->
     (hasEntry this entryKey = true ->
      getWaypointModelsForEntryAndExit new_Waypoint this entryKey exitKey =
        ([String.append "Expected valid exit of "
            (String.append (_icao this)
               (String.append ", but received " exitKey))],
         Return None)) /\
     (hasEntry this entryKey = false ->
      getWaypointModelsForEntryAndExit new_Waypoint this entryKey exitKey =
        ([String.append "Expected valid entry of "
            (String.append (_icao this)
               (String.append ", but received " entryKey))],
         Return None)) /\
     _generateWaypointsForExit new_Waypoint this exitKey =
       Throw (TypeError
         (String.append "Expected valid exit of "
            (String.append (_icao this)
               (String.append ", but received " exitKey))))).
Proof.
  intros Waypoint new_Waypoint this. split.
  - intros entryKey exitKey Ho Hp.
    assert (He : Obj.isIn entryKey (_entryPoints this) = false)
      by (apply isIn_false; now split).
    unfold getWaypointModelsForEntryAndExit, _generateWaypointsForEntry.
    rewrite He. split; reflexivity.
  - intros entryKey exitKey Ho Hp.
    assert (Hx : Obj.isIn exitKey (_exitPoints this) = false)
      by (apply isIn_false; now split).
    unfold hasEntry, getWaypointModelsForEntryAndExit, _generateWaypointsForExit.
    rewrite Hx. split; [|split].
    + intros ->. reflexivity.
    + intros ->. reflexivity.
    + reflexivity.
Qed.

Lemma C4_soft_public_lookup_hard_private_lookup_witness :
  getWaypointModelsForEntryAndExit (fun d => d) star_model "LAS" "25L" =
    (["Expected valid entry of KEPEC1, but received LAS"], Return None) /\
  _generateWaypointsForEntry (fun d => d) star_model "LAS" =
    Throw (TypeError "Expected valid entry of KEPEC1, but received LAS") /\
  getWaypointModelsForEntryAndExit (fun d => d) star_model "DAG" "07R" =
    (["Expected valid exit of KEPEC1, but received 07R"], Return None) /\
  getWaypointModelsForEntryAndExit (fun d => d) star_model "LAS" "07R" =
    (["Expected valid entry of KEPEC1, but received LAS"], Return None) /\
  _generateWaypointsForExit (fun d => d) star_model "07R" =
    Throw (TypeError "Expected valid exit of KEPEC1, but received 07R").
Proof.
  pose proof (C4_soft_public_lookup_hard_private_lookup (fun d => d) star_model)
    as [Entry Exit].
  assert (NE : ~ In "LAS" Obj.prototypeNames)
    by (simpl; intros H; repeat destruct H as [H|H]; try discriminate H; exact H).
  assert (NX : ~ In "07R" Obj.prototypeNames)
    by (simpl; intros H; repeat destruct H as [H|H]; try discriminate H; exact H).
  destruct (Entry "LAS" "25L" eq_refl NE) as [E1 E2].
  destruct (Exit "DAG" "07R" eq_refl NX) as [X1 [_ X3]].
  destruct (Exit "LAS" "07R" eq_refl NX) as [_ [X2 _]].
  split; [exact E1 | split; [exact E2 | split; [exact (X1 eq_refl) |
    split; [exact (X2 eq_refl) | exact X3]]]].
Defined.

(** C6. When the first element of [draw] is not an array - in particular
    when [draw] is empty, and when it is a flat array of fix names -
    [getAllFixNamesInUse] throws the [TypeError] whose message names the icao
    of the procedure; no fix name is returned. *)
Theorem C6_malformed_draw_throws :
  forall this : ProcedureDefinitionModel,
  let malformed :=
    Throw (TypeError
      (String.append "Invalid data set in draw segment of the "
      (String.append (_icao this)
      (String.append " procedure. Expected a 2D "
      (String.append "array: `[[FIXXA, FIXXB*], [FIXXC, FIXXD*]]`. Please see airport documentation for more information "
       "(https://github.com/openscope/openscope/blob/develop/documentation/airport-format.md#sids).")))))
  in
  (_isArray (Js.index (_draw this) 0) = false ->
   getAllFixNamesInUse this = malformed) /\
  (_draw this = [] -> getAllFixNamesInUse this = malformed) /\
  (forall fixNames, _draw this = map Token fixNames ->
                    getAllFixNamesInUse this = malformed).
Proof.
  intros this malformed.
  assert (G : _isArray (Js.index (_draw this) 0) = false ->
              getAllFixNamesInUse this = malformed).
  { intro E. unfold getAllFixNamesInUse. rewrite E. reflexivity. }
  repeat split; [exact G | |].
  - intro E. apply G. now rewrite E.
  - intros fixNames E. apply G. rewrite E. now destruct fixNames.
Qed.

Lemma C6_malformed_draw_throws_witness :
  getAllFixNamesInUse (set_draw [Token "FIXA"; Token "FIXB"] star_model) =
  Throw (TypeError
    (String.append "Invalid data set in draw segment of the KEPEC1 procedure. Expected a 2D "
    (String.append "array: `[[FIXXA, FIXXB*], [FIXXC, FIXXD*]]`. Please see airport documentation for more information "
     "(https://github.com/openscope/openscope/blob/develop/documentation/airport-format.md#sids)."))).
Proof.
  exact (proj1 (C6_malformed_draw_throws
                  (set_draw [Token "FIXA"; Token "FIXB"] star_model)) eq_refl).
Defined.

(** C8, as stated, fails on the order: the key returned is the one at the
    drawn index among [Object.keys], and that is not the insertion order
    when a key is an array index. With the exits written as "09" and then
    "27", index 0 yields "27". *)
Lemma C8_insertion_order_counterexample :
  getRandomExitPoint (fun lower upper => lower)
    (set_exitPoints (Obj.fromInsertions runway_exits) star_model) =
    Return (Some "27") /\
  nth_error (map fst runway_exits) 0 = Some "09".
Proof. split; reflexivity. Qed.

(** C8, amended. With at least one exit point and a random index between 0
    and the number of keys minus one, [getRandomExitPoint] returns a key of
    the exit points: the key at that index in the order of [Object.keys].
    For exit points written as [key: value] pairs that order is: the keys
    that are array indices in ascending order, then the other keys in the
    order of their first insertion - the insertion order itself when no key
    is an array index. With no exit point the method returns [undefined],
    whatever index is drawn, and does not throw. *)
Theorem C8_random_exit_point :
  forall (_random : Z -> Z -> Z) (this : ProcedureDefinitionModel),
  let exitNames := Obj.keys (_exitPoints this) in
  let randomIndex := _random 0%Z (Js.length exitNames - 1)%Z in
  (exitNames <> [] ->
   (0 <= randomIndex <= Js.length exitNames - 1)%Z ->
   exists exitName,
     getRandomExitPoint _random this = Return (Some exitName) /\
     nth_error exitNames (Z.to_nat randomIndex) = Some exitName /\
     In exitName exitNames /\
     hasExit this exitName = true) /\
  (forall insertions : list (string * list FixDescriptor),
     _exitPoints this = Obj.fromInsertions insertions ->
     let inserted := first_occurrences (map fst insertions) in
     exists indices,
       exitNames =
         indices ++ filter (fun key => negb (Obj.isArrayIndex key)) inserted /\
       Permutation indices (filter Obj.isArrayIndex inserted) /\
       Sorted indexLe indices /\
       (forallb (fun key => negb (Obj.isArrayIndex key)) inserted = true ->
        exitNames = inserted)) /\
  (exitNames = [] -> getRandomExitPoint _random this = Return None).
Proof.
  intros _random this exitNames randomIndex. split; [|split].
  - intros _ [Lo Hi]. unfold Js.length in Hi.
    destruct (nth_error exitNames (Z.to_nat randomIndex)) as [exitName|] eqn:E.
    + exists exitName. split; [|split; [reflexivity|]].
      * unfold getRandomExitPoint, Js.index.
        fold exitNames. fold randomIndex.
        destruct (Z.ltb_spec randomIndex 0); [lia|]. now rewrite E.
      * apply nth_error_In in E. split; [exact E|].
        apply has_isIn. now apply has_In.
    + apply nth_error_None in E. lia.
  - intros insertions E. unfold exitNames. rewrite E.
    apply keys_fromInsertions.
  - intro E. unfold getRandomExitPoint, Js.index. fold exitNames. rewrite E.
    destruct (_ <? 0)%Z; [reflexivity|].
    now destruct (Z.to_nat _).
Qed.

Lemma C8_random_exit_point_witness :
  getRandomExitPoint (fun lower upper => upper) star_model = Return (Some "25L").
Proof.
  destruct (proj1 (C8_random_exit_point (fun lower upper => upper) star_model))
    as [exitName [E [N _]]].
  - discriminate.
  - vm_compute. split; discriminate.
  - injection N as <-. exact E.
Defined.

(** C9. [reset] sets the body and the draw to [[]], the entry and exit maps
    to [{}], and icao, name and procedure type to the empty string, and
    returns the object; afterwards every getter answers with its default,
    and a second [reset] changes nothing. *)
Theorem C9_reset_defaults_idempotent :
  forall this : ProcedureDefinitionModel,
  let cleared := fst (reset this) in
  cleared = {| _body := []; _draw := []; _entryPoints := []; _exitPoints := [];
               _icao := ""; _name := ""; _procedureType := "" |} /\
  snd (reset this) = Return cleared /\
  draw cleared = [] /\ icao cleared = "" /\ name cleared = "" /\
  procedureType cleared = "" /\
  reset cleared = reset this.
Proof.
  intro this. simpl. repeat split.
Qed.

(** C10. [init] with data and a procedure type that is neither SID nor STAR
    throws, and the object it leaves has body, draw, icao, name and procedure
    type of the new data and type, but the entry and exit points it had
    before the call. *)
Theorem C10_failing_init_is_not_atomic :
  forall (procedureType : string) (data : RawData.t)
         (this : ProcedureDefinitionModel),
  procedureType <> PROCEDURE_TYPE.SID ->
  procedureType <> PROCEDURE_TYPE.STAR ->
  exists after,
    init procedureType data this =
      (after,
       Throw (TypeError
         (String.append
            "Expected procedure definition with known type, but received unknown type '"
            (String.append procedureType "'")))) /\
    _body after = RawData.body data /\
    _draw after = RawData.draw data /\
    _icao after = RawData.icao data /\
    _name after = RawData.name data /\
    _procedureType after = procedureType /\
    _entryPoints after = _entryPoints this /\
    _exitPoints after = _exitPoints this.
Proof.
  intros procedureType data this NSid NStar.
  apply String.eqb_neq in NSid, NStar.
  eexists. split.
  - unfold init. simpl. rewrite NSid, NStar. reflexivity.
  - repeat split.
Qed.

Lemma C10_failing_init_is_not_atomic_witness :
  exists after,
    fst (init "APPROACH" vector_example star_model) = after /\
    _icao after = "VEC1" /\
    _procedureType after = "APPROACH" /\
    _entryPoints after = RawData.entryPoints star_example /\
    _exitPoints after = RawData.rwy star_example.
Proof.
  assert (NSid : "APPROACH" <> PROCEDURE_TYPE.SID) by discriminate.
  assert (NStar : "APPROACH" <> PROCEDURE_TYPE.STAR) by discriminate.
  destruct (C10_failing_init_is_not_atomic vector_example star_model NSid NStar)
    as [after [E [_ [_ [I [_ [T [En Ex]]]]]]]].
  exists after. rewrite E.
  split; [reflexivity | split; [exact I | split; [exact T | split; [exact En | exact Ex]]]].
Defined.

Example star_model_fix_names :
  getAllFixNamesInUse star_model =
  Return [Some "DAG"; Some "MISEN"; Some "TNP"; Some "CLARR"; Some "SKEBR";
          Some "RELIN"].
Proof. reflexivity. Qed.

(** C7, as stated, fails: [replace] with a string pattern removes one
    occurrence only. The name "^^FIXA" keeps a '^', so not every occurrence
    is stripped, and the draw token "FIX*C*" keeps its trailing '*', because
    the '*' removed is the first one. *)
Lemma C7_every_occurrence_counterexample :
  _getFixNameFromRestrictedFixArray (FixString "^^FIXA") = Return (Some "^FIXA") /\
  _getFixNameFromRestrictedFixArray (FixString "^^FIXA") <>
    Return (Some (strip_every "@" (strip_every "^" "^^FIXA"))) /\
  _getFixNamesFromDraw (set_draw [Segment ["FIX*C*"]] star_model) =
    Return ["FIXC*"] /\
  _getFixNamesFromDraw (set_draw [Segment ["FIX*C*"]] star_model) <>
    Return [strip_trailing "*" "FIX*C*"].
Proof.
  split; [reflexivity | split; [discriminate | split; [reflexivity | discriminate]]].
Qed.

(** C7, amended. For a descriptor whose name portion (the first element of an
    array, the string itself otherwise) has no '#', the bare-name rule
    returns the name without its first '^' and without its first '@'; this is
    the name with every '^' and '@' stripped when it has at most one of each
    ("^FIXA" gives "FIXA", "@FIXB" gives "FIXB"). A draw token loses its first
    '*'; this is the token with every '*' stripped when it has at most one,
    and the token without its trailing '*' when that is its only one
    ("FIXC*" gives "FIXC"). *)
Theorem C7_bare_name_strips_first_occurrences :
  (forall (d : FixDescriptor) (fixName : string),
     namePortion d = Some fixName ->
     Js.indexOf fixName "#" = (-1)%Z ->
     _getFixNameFromRestrictedFixArray d =
       Return (Some (Js.replace (Js.replace fixName "^" "") "@" "")) /\
     (occurrences "^" fixName <= 1 -> occurrences "@" fixName <= 1 ->
      _getFixNameFromRestrictedFixArray d =
        Return (Some (strip_every "@" (strip_every "^" fixName))) /\
      occurrences "^" (strip_every "@" (strip_every "^" fixName)) = 0 /\
      occurrences "@" (strip_every "@" (strip_every "^" fixName)) = 0)) /\
  (forall (this : ProcedureDefinitionModel) first rest,
     _draw this = Segment first :: rest ->
     _getFixNamesFromDraw this =
       Return (map (fun token => Js.replace token "*" "") (drawTokens (_draw this))) /\
     (Forall (fun token => occurrences "*" token <= 1) (drawTokens (_draw this)) ->
      _getFixNamesFromDraw this =
        Return (map (strip_every "*") (drawTokens (_draw this))))) /\
  (forall (this : ProcedureDefinitionModel) (fixName : string),
     occurrences "*" fixName = 0 ->
     _draw this = [Segment [String.append fixName "*"]] ->
     _getFixNamesFromDraw this = Return [fixName]) /\
  _getFixNameFromRestrictedFixArray (FixString "^FIXA") = Return (Some "FIXA") /\
  _getFixNameFromRestrictedFixArray (FixArray ["@FIXB"; "S250"]) =
    Return (Some "FIXB") /\
  _getFixNamesFromDraw (set_draw [Segment ["FIXC*"]] star_model) = Return ["FIXC"].
Proof.
  split; [|split; [|split; [|split; [|split]]]]; try reflexivity.
  - intros d fixName Hn Hh.
    rewrite (_getFixName_namePortion d Hn), Hh. simpl. split; [reflexivity|].
    intros Hc Ha.
    rewrite (replace_once_strip_every "^" fixName Hc).
    rewrite replace_once_strip_every
      by (pose proof (occurrences_strip_other "@" "^" fixName); lia).
    split; [reflexivity|]. split.
    + pose proof (occurrences_strip_other "^" "@" (strip_every "^" fixName)).
      rewrite occurrences_strip_every in *. lia.
    + apply occurrences_strip_every.
  - intros this first rest Hd.
    assert (G : _getFixNamesFromDraw this =
                Return (map (fun token => Js.replace token "*" "")
                          (drawTokens (_draw this)))).
    { unfold _getFixNamesFromDraw. rewrite Hd, fold_left_Array_concat.
      reflexivity. }
    split; [exact G|]. intro F. rewrite G. f_equal.
    apply map_ext_in. intros token I.
    apply (replace_once_strip_every "*").
    rewrite Forall_forall in F. now apply F.
  - intros this fixName Hs Hd. unfold _getFixNamesFromDraw. rewrite Hd. simpl.
    now rewrite (replace_trailing "*" fixName Hs).
Qed.

Lemma C7_bare_name_strips_first_occurrences_witness :
  _getFixNameFromRestrictedFixArray (FixArray ["^@MISEN"; "A240"]) =
    Return (Some "MISEN") /\
  _getFixNamesFromDraw star_model =
    Return ["DAG"; "MISEN"; "CLARR"; "CLARR"; "SKEBR"] /\
  _getFixNamesFromDraw (set_draw [Segment ["RELIN*"]] star_model) =
    Return ["RELIN"].
Proof.
  pose proof C7_bare_name_strips_first_occurrences as [Name [Draw [Trailing _]]].
  split; [|split].
  - destruct (Name (FixArray ["^@MISEN"; "A240"]) "^@MISEN" eq_refl eq_refl)
      as [_ Every].
    refine (proj1 (Every _ _)); simpl; lia.
  - destruct (Draw star_model _ _ eq_refl) as [_ Every].
    apply Every. repeat constructor.
  - exact (Trailing (set_draw [Segment ["RELIN*"]] star_model) "RELIN"
             eq_refl eq_refl).
Defined.

(** C3: what the code does on a descriptor with '#'. The bare-name rule
    returns [undefined] for it, and [_.map] keeps that [undefined]: the names
    of a procedure whose body is FIXA followed by the directive "FIX#HDG"
    contain one [undefined] element besides the fix names. *)
Theorem C3_directive_contributes_undefined :
  _getFixNameFromRestrictedFixArray (FixString "FIX#HDG") = Return None /\
  exists this,
    constructor PROCEDURE_TYPE.SID (Some vector_example) = Return this /\
    _getFixNamesFromBody this = Return [Some "FIXA"; None] /\
    getAllFixNamesInUse this = Return [Some "FIXA"; None; Some "FIXB"] /\
    List.length [Some "FIXA"; None; Some "FIXB"] <> List.length ["FIXA"; "FIXB"].
Proof.
  split; [reflexivity|]. eexists.
  split; [reflexivity | split; [reflexivity | split; [reflexivity | discriminate]]].
Qed.

(** ** Further properties of the class *)

Section InversionFacts.

Lemma indexOfFrom_char (c : ascii) (s : string) (position : Z) :
  (0 <= position)%Z ->
  Js.indexOfFrom (String c "") s position = (-1)%Z <-> occurrences c s = 0.
Proof.
  revert position. induction s as [|a s IH]; intros position P.
  - simpl. tauto.
  - cbn [Js.indexOfFrom String.prefix occurrences].
    destruct (ascii_dec c a) as [->|N].
    + rewrite Ascii.eqb_refl.
      replace (String.prefix "" s) with true by now destruct s.
      split; [lia | discriminate].
    + assert (Ascii.eqb a c = false) as -> by (apply Ascii.eqb_neq; congruence).
      simpl. apply IH. lia.
Qed.

Lemma indexOf_char (c : ascii) (s : string) :
  Js.indexOf s (String c "") = (-1)%Z <-> occurrences c s = 0.
Proof. unfold Js.indexOf. apply indexOfFrom_char. lia. Qed.

Lemma occurrences_replace_other (c c' : ascii) (s : string) :
  c <> c' ->
  occurrences c (Js.replace s (String c' "") "") = occurrences c s.
Proof.
  intro N. induction s as [|a s IH]; [reflexivity|].
  rewrite replace_char_cons.
  destruct (Ascii.eqb a c') eqn:E; simpl.
  - apply Ascii.eqb_eq in E. subst a.
    assert (Ascii.eqb c' c = false) as -> by (apply Ascii.eqb_neq; congruence).
    reflexivity.
  - now rewrite IH.
Qed.

(** What the bare-name rule returns, read backwards. *)
Lemma _getFixName_Return_inv (d : FixDescriptor) (result : option string) :
  _getFixNameFromRestrictedFixArray d = Return result ->
  exists fixName,
    namePortion d = Some fixName /\
    ((Js.indexOf fixName "#" <> (-1)%Z /\ result = None) \/
     (Js.indexOf fixName "#" = (-1)%Z /\
      result = Some (Js.replace (Js.replace fixName "^" "") "@" ""))).
Proof.
  destruct (namePortion d) as [fixName|] eqn:E.
  - rewrite (_getFixName_namePortion d E). intro H. exists fixName.
    split; [reflexivity|].
    destruct (Z.eqb_spec (Js.indexOf fixName "#") (-1)) as [I|I]; simpl in H;
      injection H as <-; [right | left]; now split.
  - destruct d as [s|[|s l]]; simpl in E; discriminate.
Qed.

Lemma _getFixName_Throw_inv (d : FixDescriptor) (e : Exception) :
  _getFixNameFromRestrictedFixArray d = Throw e ->
  e = RuntimeTypeError /\ wellFormedDescriptor d = false.
Proof.
  unfold wellFormedDescriptor.
  destruct (namePortion d) as [fixName|] eqn:E.
  - rewrite (_getFixName_namePortion d E). destruct (negb _); discriminate.
  - destruct d as [s|[|s l]]; simpl in E; try discriminate.
    simpl. intro H. injection H as <-. now split.
Qed.

Lemma _map_Return_inv {A B : Type} (f : A -> Outcome B) (array : list A)
  (ys : list B) :
  _map array f = Return ys -> Forall2 (fun x y => f x = Return y) array ys.
Proof.
  revert ys. induction array as [|a l IH]; intros ys H; simpl in H.
  - injection H as <-. constructor.
  - destruct (f a) as [y|e] eqn:Ea; simpl in H; [|discriminate].
    destruct (_map l f) as [ys'|e] eqn:El; simpl in H; [|discriminate].
    injection H as <-. constructor; [assumption | now apply IH].
Qed.

Lemma _map_Throw_inv {A B : Type} (f : A -> Outcome B) (array : list A)
  (e : Exception) :
  _map array f = Throw e -> exists x, In x array /\ f x = Throw e.
Proof.
  induction array as [|a l IH]; simpl; [discriminate|].
  destruct (f a) as [y|e'] eqn:Ea; simpl.
  - destruct (_map l f) as [ys'|e'] eqn:El; simpl; [discriminate|].
    intro H. injection H as ->. destruct (IH eq_refl) as [x [I Ex]]. eauto.
  - intro H. injection H as ->. eauto.
Qed.

Lemma _forEach_segments_Return_inv {B : Type} (f : FixDescriptor -> Outcome B)
  (object : Obj.t (list FixDescriptor)) (fixNames result : list B) :
  _forEach object (fun segment fixNames =>
    fixesInSegment <- _map segment f ;;
    Return (fixNames ++ fixesInSegment)) fixNames = Return result ->
  exists names,
    result = fixNames ++ names /\
    Forall2 (fun x y => f x = Return y) (descriptorsOf object) names.
Proof.
  unfold descriptorsOf. revert fixNames.
  induction object as [|[k segment] rest IH]; intros fixNames H; simpl in *.
  - injection H as <-. exists []. rewrite app_nil_r. split; [reflexivity | constructor].
  - destruct (_map segment f) as [ys|e] eqn:Es; simpl in H; [|discriminate].
    destruct (IH _ H) as [names [-> F]].
    exists (ys ++ names). rewrite <- app_assoc. split; [reflexivity|].
    apply Forall2_app; [now apply _map_Return_inv | assumption].
Qed.

Lemma _forEach_segments_Throw_inv {B : Type} (f : FixDescriptor -> Outcome B)
  (object : Obj.t (list FixDescriptor)) (fixNames : list B) (e : Exception) :
  _forEach object (fun segment fixNames =>
    fixesInSegment <- _map segment f ;;
    Return (fixNames ++ fixesInSegment)) fixNames = Throw e ->
  exists d, In d (descriptorsOf object) /\ f d = Throw e.
Proof.
  unfold descriptorsOf. revert fixNames.
  induction object as [|[k segment] rest IH]; intros fixNames H; simpl in *.
  - discriminate.
  - destruct (_map segment f) as [ys|e'] eqn:Es; simpl in H.
    + destruct (IH _ H) as [d [I Ed]]. exists d. rewrite in_app_iff. eauto.
    + injection H as ->. destruct (_map_Throw_inv _ _ Es) as [d [I Ed]].
      exists d. rewrite in_app_iff. eauto.
Qed.

Lemma Forall2_In_right {A B : Type} (R : A -> B -> Prop) (l : list A)
  (l' : list B) (y : B) :
  Forall2 R l l' -> In y l' -> exists x, In x l /\ R x y.
Proof.
  induction 1 as [|a b l l' Rab _ IH]; simpl; [tauto|].
  intros [<-|I]; [eauto|]. destruct (IH I) as [x [Ix Rx]]. eauto.
Qed.

Lemma Forall2_In_left {A B : Type} (R : A -> B -> Prop) (l : list A)
  (l' : list B) (x : A) :
  Forall2 R l l' -> In x l -> exists y, In y l' /\ R x y.
Proof.
  induction 1 as [|a b l l' Rab _ IH]; simpl; [tauto|].
  intros [<-|I]; [eauto|]. destruct (IH I) as [y [Iy Ry]]. eauto.
Qed.

Lemma _getFixNamesFromEntries_Return_inv (this : ProcedureDefinitionModel)
  (result : list (option string)) :
  _getFixNamesFromEntries this = Return result ->
  exists E,
    result = first_occurrences E /\
    Forall2 (fun d fixName => _getFixNameFromRestrictedFixArray d = Return fixName)
      (descriptorsOf (_entryPoints this)) E.
Proof.
  unfold _getFixNamesFromEntries.
  match goal with
  | |- context [_forEach ?o ?f ?a] => destruct (_forEach o f a) as [r|e] eqn:H
  end; simpl; [|discriminate].
  intro R. injection R as <-.
  destruct (_forEach_segments_Return_inv
              (fun restrictedFix => _getFixNameFromRestrictedFixArray restrictedFix)
              _ _ H) as [E [-> F]].
  exists E. simpl. split; [apply _uniq_first_occurrences | exact F].
Qed.

Lemma _getFixNamesFromExits_Return_inv (this : ProcedureDefinitionModel)
  (result : list (option string)) :
  _getFixNamesFromExits this = Return result ->
  exists X,
    result = first_occurrences X /\
    Forall2 (fun d fixName => _getFixNameFromRestrictedFixArray d = Return fixName)
      (descriptorsOf (_exitPoints this)) X.
Proof.
  unfold _getFixNamesFromExits.
  match goal with
  | |- context [_forEach ?o ?f ?a] => destruct (_forEach o f a) as [r|e] eqn:H
  end; simpl; [|discriminate].
  intro R. injection R as <-.
  destruct (_forEach_segments_Return_inv
              (fun restrictedFix => _getFixNameFromRestrictedFixArray restrictedFix)
              _ _ H) as [X [-> F]].
  exists X. simpl. split; [apply _uniq_first_occurrences | exact F].
Qed.

Lemma _getFixNamesFromDraw_Return (this : ProcedureDefinitionModel) :
  _isArray (Js.index (_draw this) 0) = true ->
  _getFixNamesFromDraw this =
  Return (map (fun token => Js.replace token "*" "") (drawTokens (_draw this))).
Proof.
  intro W. destruct (_isArray_first_segment _ W) as [first [rest Hd]].
  unfold _getFixNamesFromDraw. rewrite Hd, fold_left_Array_concat. reflexivity.
Qed.

(** A returned list of fix names, read backwards: the deduplication of the
    names of the entries, the body, the exits and the draw tokens. *)
Lemma getAllFixNamesInUse_Return_inv (this : ProcedureDefinitionModel)
  (names : list (option string)) :
  getAllFixNamesInUse this = Return names ->
  exists E B X,
    _isArray (Js.index (_draw this) 0) = true /\
    Forall2 (fun d fixName => _getFixNameFromRestrictedFixArray d = Return fixName)
      (descriptorsOf (_entryPoints this)) E /\
    Forall2 (fun d fixName => _getFixNameFromRestrictedFixArray d = Return fixName)
      (_body this) B /\
    Forall2 (fun d fixName => _getFixNameFromRestrictedFixArray d = Return fixName)
      (descriptorsOf (_exitPoints this)) X /\
    names = first_occurrences
              (E ++ B ++ X ++
               map Some (map (fun token => Js.replace token "*" "")
                           (drawTokens (_draw this)))).
Proof.
  unfold getAllFixNamesInUse.
  destruct (_isArray (Js.index (_draw this) 0)) eqn:W; simpl; [|discriminate].
  destruct (_getFixNamesFromEntries this) as [e|?] eqn:GE; simpl; [|discriminate].
  destruct (_getFixNamesFromBody this) as [B|?] eqn:GB; simpl; [|discriminate].
  destruct (_getFixNamesFromExits this) as [x|?] eqn:GX; simpl; [|discriminate].
  rewrite (_getFixNamesFromDraw_Return this W). simpl.
  intro R. injection R as <-.
  destruct (_getFixNamesFromEntries_Return_inv _ GE) as [E [-> FE]].
  destruct (_getFixNamesFromExits_Return_inv _ GX) as [X [-> FX]].
  exists E, B, X. repeat (split; [first [assumption | reflexivity]|]).
  split.
  - exact (_map_Return_inv _ _ GB).
  - split; [exact FX|].
    now rewrite _uniq_first_occurrences, first_occurrences_steps.
Qed.

Lemma getAllFixNamesInUse_wellFormed (this : ProcedureDefinitionModel) :
  wellFormed this = true -> exists names, getAllFixNamesInUse this = Return names.
Proof.
  intro W. unfold wellFormed in W.
  apply andb_prop in W. destruct W as [W Wx].
  apply andb_prop in W. destruct W as [W Wb].
  apply andb_prop in W. destruct W as [Wd We].
  destruct (_forEach_segments _getFixNameFromRestrictedFixArray
              (_entryPoints this) [] (wellFormedDescriptors_return _ We))
    as [E [HE _]].
  destruct (_map_Forall2 _getFixNameFromRestrictedFixArray
              (wellFormedDescriptors_return _ Wb)) as [B [HB _]].
  destruct (_forEach_segments _getFixNameFromRestrictedFixArray
              (_exitPoints this) [] (wellFormedDescriptors_return _ Wx))
    as [X [HX _]].
  assert (GE : _getFixNamesFromEntries this = Return (_uniq ([] ++ E)))
    by exact (bind_returns _ HE eq_refl).
  assert (GB : _getFixNamesFromBody this = Return B) by exact HB.
  assert (GX : _getFixNamesFromExits this = Return (_uniq ([] ++ X)))
    by exact (bind_returns _ HX eq_refl).
  unfold getAllFixNamesInUse.
  rewrite Wd, GE, GB, GX, (_getFixNamesFromDraw_Return this Wd). simpl.
  eexists. reflexivity.
Qed.

End InversionFacts.

Section LookupFacts.

Variable Waypoint : Type.
Variable new_Waypoint : FixDescriptor -> Waypoint.

Lemma get_has {V : Type} (object : Obj.t V) (key : string) (v : V) :
  Obj.get object key = Some v -> Obj.has key object = true.
Proof.
  unfold Obj.has, Obj.keys.
  induction object as [|[k v'] rest IH]; simpl; [discriminate|].
  destruct (String.eqb key k); simpl; [reflexivity | exact IH].
Qed.

Lemma _generateWaypointsForEntry_isIn (this : ProcedureDefinitionModel)
  (entry : string) :
  Obj.isIn entry (_entryPoints this) = true ->
  exists entryWaypointModels,
    _generateWaypointsForEntry new_Waypoint this entry = Return entryWaypointModels.
Proof.
  intro H. unfold _generateWaypointsForEntry, Obj.member. rewrite H. simpl.
  destruct (Obj.get (_entryPoints this) entry) as [segment|]; simpl.
  - rewrite _map_total. eauto.
  - destruct (Obj.inherits entry); simpl; eauto.
Qed.

Lemma _generateWaypointsForExit_isIn (this : ProcedureDefinitionModel)
  (exit : string) :
  Obj.isIn exit (_exitPoints this) = true ->
  exists exitWaypointModels,
    _generateWaypointsForExit new_Waypoint this exit = Return exitWaypointModels.
Proof.
  intro H. unfold _generateWaypointsForExit, Obj.member. rewrite H. simpl.
  destruct (Obj.get (_exitPoints this) exit) as [segment|]; simpl.
  - rewrite _map_total. eauto.
  - destruct (Obj.inherits exit); simpl; eauto.
Qed.

Lemma getWaypointModels_found (this : ProcedureDefinitionModel)
  (entry exit : string) :
  Obj.isIn entry (_entryPoints this) = true ->
  Obj.isIn exit (_exitPoints this) = true ->
  exists entryWaypointModels exitWaypointModels,
    _generateWaypointsForEntry new_Waypoint this entry = Return entryWaypointModels /\
    _generateWaypointsForExit new_Waypoint this exit = Return exitWaypointModels /\
    getWaypointModelsForEntryAndExit new_Waypoint this entry exit =
      ([], Return (Some (entryWaypointModels ++ map new_Waypoint (_body this)
                         ++ exitWaypointModels))).
Proof.
  intros He Hx.
  destruct (_generateWaypointsForEntry_isIn this entry He) as [e Ge].
  destruct (_generateWaypointsForExit_isIn this exit Hx) as [x Gx].
  exists e, x. split; [exact Ge | split; [exact Gx|]].
  unfold getWaypointModelsForEntryAndExit, _generateWaypointsForBody.
  rewrite He, Hx, Ge, Gx, _map_total. reflexivity.
Qed.

End LookupFacts.

(** X1. On a procedure whose entry and exit points are objects,
    [getWaypointModelsForEntryAndExit] returns an array and writes nothing on
    the console exactly when [hasEntry] and [hasExit] both hold for the two
    keys - which includes the names every object inherits, such as
    "toString"; otherwise it returns [undefined] after writing exactly one
    [console.error] line. An array result may be empty, and is still not
    [undefined]. *)
Theorem X1_lookup_returns_array_iff_has_entry_and_exit :
  forall (Waypoint : Type) (new_Waypoint : FixDescriptor -> Waypoint)
         (this : ProcedureDefinitionModel) (entry exit : string),
  (hasEntry this entry && hasExit this exit = true ->
   exists waypoints,
     getWaypointModelsForEntryAndExit new_Waypoint this entry exit =
       ([], Return (Some waypoints))) /\
  (hasEntry this entry && hasExit this exit = false ->
   exists line,
     getWaypointModelsForEntryAndExit new_Waypoint this entry exit =
       ([line], Return None)) /\
  (hasEntry this entry = true <->
   In entry (Obj.keys (_entryPoints this)) \/ In entry Obj.prototypeNames) /\
  (hasExit this exit = true <->
   In exit (Obj.keys (_exitPoints this)) \/ In exit Obj.prototypeNames).
Proof.
  intros Waypoint new_Waypoint this entry exit.
  split; [|split; [|split; apply isIn_true]].
  - unfold hasEntry, hasExit. intro H. apply andb_prop in H. destruct H as [He Hx].
    destruct (getWaypointModels_found new_Waypoint this entry exit He Hx)
      as [e [x [_ [_ G]]]].
    eauto.
  - unfold hasEntry, hasExit, getWaypointModelsForEntryAndExit.
    destruct (Obj.isIn entry (_entryPoints this)); simpl; [|eauto].
    intros ->. simpl. eauto.
Qed.

Lemma X1_lookup_returns_array_iff_has_entry_and_exit_witness :
  (exists waypoints,
     getWaypointModelsForEntryAndExit (fun d => d) star_model "DAG" "19L" =
       ([], Return (Some waypoints))) /\
  (exists waypoints,
     getWaypointModelsForEntryAndExit (fun d => d) star_model "toString" "19L" =
       ([], Return (Some waypoints))) /\
  (exists line,
     getWaypointModelsForEntryAndExit (fun d => d) star_model "DAG" "DAG" =
       ([line], Return None)).
Proof.
  split; [|split].
  - exact (proj1 (X1_lookup_returns_array_iff_has_entry_and_exit
                    (fun d => d) star_model "DAG" "19L") eq_refl).
  - exact (proj1 (X1_lookup_returns_array_iff_has_entry_and_exit
                    (fun d => d) star_model "toString" "19L") eq_refl).
  - exact (proj1 (proj2 (X1_lookup_returns_array_iff_has_entry_and_exit
                           (fun d => d) star_model "DAG" "DAG")) eq_refl).
Defined.

(** X2. The public lookup returns an array exactly when the two private
    generators return for its keys, and the array is then the result of
    [_generateWaypointsForEntry], followed by the result of
    [_generateWaypointsForBody] - one waypoint for every body descriptor -
    followed by the result of [_generateWaypointsForExit]: every route holds
    the whole body, between its entry and its exit. *)
Theorem X2_public_lookup_is_the_private_generators :
  forall (Waypoint : Type) (new_Waypoint : FixDescriptor -> Waypoint)
         (this : ProcedureDefinitionModel) (entry exit : string)
         (waypoints : list Waypoint),
  _generateWaypointsForBody new_Waypoint this =
    Return (map new_Waypoint (_body this)) /\
  (getWaypointModelsForEntryAndExit new_Waypoint this entry exit =
     ([], Return (Some waypoints)) <->
   exists entryWaypointModels exitWaypointModels,
     _generateWaypointsForEntry new_Waypoint this entry = Return entryWaypointModels /\
     _generateWaypointsForExit new_Waypoint this exit = Return exitWaypointModels /\
     waypoints = entryWaypointModels ++ map new_Waypoint (_body this)
                 ++ exitWaypointModels).
Proof.
  intros Waypoint new_Waypoint this entry exit waypoints.
  split; [apply _map_total|].
  destruct (Obj.isIn entry (_entryPoints this)) eqn:He;
    [destruct (Obj.isIn exit (_exitPoints this)) eqn:Hx|].
  - destruct (getWaypointModels_found new_Waypoint this entry exit He Hx)
      as [e [x [Ge [Gx G]]]].
    rewrite G, Ge, Gx. split.
    + intro H. injection H as <-. eauto.
    + intros [e' [x' [Ee [Ex ->]]]]. injection Ee as <-. injection Ex as <-.
      reflexivity.
  - unfold getWaypointModelsForEntryAndExit, _generateWaypointsForExit.
    rewrite He, Hx. simpl. split; [discriminate|].
    intros [e' [x' [_ [Ex _]]]]. discriminate.
  - unfold getWaypointModelsForEntryAndExit, _generateWaypointsForEntry.
    rewrite He. simpl. split; [discriminate|].
    intros [e' [x' [Ee _]]]. discriminate.
Qed.

Lemma X2_public_lookup_is_the_private_generators_witness :
  getWaypointModelsForEntryAndExit (fun d => d) star_model "TNP" "19L" =
    ([], Return (Some ([FixString "TNP"; FixString "MISEN"]
                       ++ map (fun d => d) (_body star_model)
                       ++ [FixString "CLARR"; FixString "@SKEBR"]))).
Proof.
  apply (proj2 (X2_public_lookup_is_the_private_generators
                  (fun d => d) star_model "TNP" "19L" _)).
  exists [FixString "TNP"; FixString "MISEN"],
         [FixString "CLARR"; FixString "@SKEBR"].
  split; [reflexivity | split; reflexivity].
Defined.

(** X3. Called on its own, [_getFixNamesFromDraw] returns exactly when the
    first element of [draw] is an array - the condition [getAllFixNamesInUse]
    checks before calling it - and then yields one name for every token of
    [draw], in order, each without its first '*'; on an empty [draw] and on a
    [draw] that starts with a fix name it fails with a [TypeError] of the
    engine. *)
Theorem X3_draw_names_return_iff_first_is_array :
  forall this : ProcedureDefinitionModel,
  (_isArray (Js.index (_draw this) 0) = true ->
   exists drawFixNames,
     _getFixNamesFromDraw this = Return drawFixNames /\
     drawFixNames =
       map (fun token => Js.replace token "*" "") (drawTokens (_draw this)) /\
     List.length drawFixNames = List.length (drawTokens (_draw this))) /\
  (_isArray (Js.index (_draw this) 0) = false ->
   _getFixNamesFromDraw this = Throw RuntimeTypeError).
Proof.
  intro this. split.
  - intro W. eexists. split; [apply (_getFixNamesFromDraw_Return this W)|].
    split; [reflexivity | apply length_map].
  - unfold _getFixNamesFromDraw.
    destruct (_draw this) as [|[first|fixName] rest]; simpl;
      [reflexivity | discriminate | reflexivity].
Qed.

Lemma X3_draw_names_return_iff_first_is_array_witness :
  (exists drawFixNames,
     _getFixNamesFromDraw star_model = Return drawFixNames /\
     List.length drawFixNames = 5) /\
  _getFixNamesFromDraw (set_draw [Token "DAG"; Segment ["MISEN"]] star_model) =
    Throw RuntimeTypeError.
Proof.
  split.
  - destruct (proj1 (X3_draw_names_return_iff_first_is_array star_model) eq_refl)
      as [names [G [_ L]]].
    exists names. split; [exact G | exact L].
  - exact (proj2 (X3_draw_names_return_iff_first_is_array
                    (set_draw [Token "DAG"; Segment ["MISEN"]] star_model))
             eq_refl).
Defined.

Section NameFacts.

Lemma _getFixName_Return_wellFormed (d : FixDescriptor) (result : option string) :
  _getFixNameFromRestrictedFixArray d = Return result ->
  wellFormedDescriptor d = true.
Proof.
  intro H. destruct (_getFixName_Return_inv d H) as [fixName [E _]].
  unfold wellFormedDescriptor. now rewrite E.
Qed.

Lemma Forall2_returns_wellFormed (l : list FixDescriptor)
  (names : list (option string)) :
  Forall2 (fun d fixName => _getFixNameFromRestrictedFixArray d = Return fixName)
    l names ->
  forallb wellFormedDescriptor l = true.
Proof.
  intro F. apply forallb_forall. intros d I.
  destruct (Forall2_In_left d F I) as [fixName [_ R]].
  exact (_getFixName_Return_wellFormed d R).
Qed.

Lemma _getFixNamesFromEntries_Throw_inv (this : ProcedureDefinitionModel)
  (e : Exception) :
  _getFixNamesFromEntries this = Throw e -> e = RuntimeTypeError.
Proof.
  unfold _getFixNamesFromEntries.
  match goal with
  | |- context [_forEach ?o ?f ?a] => destruct (_forEach o f a) as [r|e'] eqn:H
  end; simpl; [discriminate|].
  intro R. injection R as ->.
  destruct (_forEach_segments_Throw_inv
              (fun restrictedFix => _getFixNameFromRestrictedFixArray restrictedFix)
              _ _ H) as [d [_ T]].
  exact (proj1 (_getFixName_Throw_inv d T)).
Qed.

Lemma _getFixNamesFromExits_Throw_inv (this : ProcedureDefinitionModel)
  (e : Exception) :
  _getFixNamesFromExits this = Throw e -> e = RuntimeTypeError.
Proof.
  unfold _getFixNamesFromExits.
  match goal with
  | |- context [_forEach ?o ?f ?a] => destruct (_forEach o f a) as [r|e'] eqn:H
  end; simpl; [discriminate|].
  intro R. injection R as ->.
  destruct (_forEach_segments_Throw_inv
              (fun restrictedFix => _getFixNameFromRestrictedFixArray restrictedFix)
              _ _ H) as [d [_ T]].
  exact (proj1 (_getFixName_Throw_inv d T)).
Qed.

Lemma _getFixNamesFromBody_Throw_inv (this : ProcedureDefinitionModel)
  (e : Exception) :
  _getFixNamesFromBody this = Throw e -> e = RuntimeTypeError.
Proof.
  intro H. destruct (_map_Throw_inv _ _ H) as [d [_ T]].
  exact (proj1 (_getFixName_Throw_inv d T)).
Qed.

Lemma first_occurrences_length {A : Type} `{SameValueZero A} (l : list A) :
  List.length (first_occurrences l) <= List.length l.
Proof.
  induction l as [|a l IH]; simpl; [lia|].
  pose proof (filter_length_le (fun y => negb (sameValueZero a y))
                (first_occurrences l)).
  lia.
Qed.

End NameFacts.

(** X4. [getAllFixNamesInUse] returns a list exactly for the well-formed
    procedures: the first element of [draw] is an array and every descriptor
    of the entries, the body and the exits has a name portion. When [draw]
    passes the check but some descriptor is an empty array, the call fails
    with a [TypeError] of the engine (the name of the descriptor is
    [undefined], which has no [indexOf]). *)
Theorem X4_fix_names_return_iff_well_formed :
  forall this : ProcedureDefinitionModel,
  ((exists names, getAllFixNamesInUse this = Return names) <->
   wellFormed this = true) /\
  (_isArray (Js.index (_draw this) 0) = true ->
   wellFormed this = false ->
   getAllFixNamesInUse this = Throw RuntimeTypeError).
Proof.
  intro this.
  assert (Iff : (exists names, getAllFixNamesInUse this = Return names) <->
                wellFormed this = true).
  { split; [|apply getAllFixNamesInUse_wellFormed].
    intros [names G].
    destruct (getAllFixNamesInUse_Return_inv this G)
      as [E [B [X [Wd [FE [FB [FX _]]]]]]].
    unfold wellFormed.
    rewrite Wd, (Forall2_returns_wellFormed FE), (Forall2_returns_wellFormed FB),
      (Forall2_returns_wellFormed FX).
    reflexivity. }
  split; [exact Iff|].
  intros Wd Wf.
  destruct (getAllFixNamesInUse this) as [names|e] eqn:G.
  - assert (wellFormed this = true) by (apply Iff; eauto). congruence.
  - f_equal. revert G. unfold getAllFixNamesInUse. rewrite Wd. simpl.
    destruct (_getFixNamesFromEntries this) as [en|?] eqn:GE; simpl;
      [|intro R; injection R as <-; exact (_getFixNamesFromEntries_Throw_inv _ GE)].
    destruct (_getFixNamesFromBody this) as [bn|?] eqn:GB; simpl;
      [|intro R; injection R as <-; exact (_getFixNamesFromBody_Throw_inv _ GB)].
    destruct (_getFixNamesFromExits this) as [xn|?] eqn:GX; simpl;
      [|intro R; injection R as <-; exact (_getFixNamesFromExits_Throw_inv _ GX)].
    rewrite (_getFixNamesFromDraw_Return this Wd). simpl. discriminate.
Qed.

Lemma X4_fix_names_return_iff_well_formed_witness :
  getAllFixNamesInUse (set_body [FixString "CLARR"; FixArray []] star_model) =
  Throw RuntimeTypeError.
Proof.
  exact (proj2 (X4_fix_names_return_iff_well_formed
                  (set_body [FixString "CLARR"; FixArray []] star_model))
           eq_refl eq_refl).
Defined.

(** X5. A returned list of fix names is never longer than the number of
    descriptors of all entry segments, of the body and of all exit segments
    plus the number of draw tokens. *)
Theorem X5_fix_names_are_at_most_the_descriptors_and_tokens :
  forall (this : ProcedureDefinitionModel) (names : list (option string)),
  getAllFixNamesInUse this = Return names ->
  List.length names <=
    List.length (descriptorsOf (_entryPoints this)) + List.length (_body this)
    + List.length (descriptorsOf (_exitPoints this))
    + List.length (drawTokens (_draw this)).
Proof.
  intros this names G.
  destruct (getAllFixNamesInUse_Return_inv this G)
    as [E [B [X [_ [FE [FB [FX ->]]]]]]].
  apply Forall2_length in FE, FB, FX.
  etransitivity; [apply first_occurrences_length|].
  rewrite !length_app, !length_map. lia.
Qed.

Lemma X5_fix_names_are_at_most_the_descriptors_and_tokens_witness :
  exists names,
    getAllFixNamesInUse star_model = Return names /\
    List.length names <= 4 + 2 + 4 + 5.
Proof.
  eexists. split; [reflexivity|].
  exact (X5_fix_names_are_at_most_the_descriptors_and_tokens star_model eq_refl).
Defined.

(** X6. A name the bare-name rule returns has no '#': a descriptor whose name
    portion has one yields [undefined], and removing a '^' and a '@' from a
    name that has none does not bring one in. *)
Theorem X6_bare_names_have_no_hash :
  forall (d : FixDescriptor) (fixName : string),
  _getFixNameFromRestrictedFixArray d = Return (Some fixName) ->
  Js.indexOf fixName "#" = (-1)%Z /\ occurrences "#" fixName = 0.
Proof.
  intros d fixName H.
  destruct (_getFixName_Return_inv d H) as [n [_ [[_ E]|[I E]]]];
    [discriminate|].
  injection E as ->.
  assert (O : occurrences "#"
                (Js.replace (Js.replace n "^" "") "@" "") = 0).
  { rewrite !occurrences_replace_other by discriminate.
    now apply (indexOf_char "#"). }
  split; [now apply (indexOf_char "#") | exact O].
Qed.

Lemma X6_bare_names_have_no_hash_witness :
  Js.indexOf "MISEN" "#" = (-1)%Z /\ occurrences "#" "MISEN" = 0.
Proof.
  exact (X6_bare_names_have_no_hash (FixArray ["^MISEN"; "A240"]) eq_refl).
Defined.

(** X7. A returned list of fix names contains [undefined] exactly when the
    name portion of some descriptor of the entries, the body or the exits
    contains '#'; the draw tokens never bring it in. *)
Theorem X7_undefined_among_names_iff_directive :
  forall (this : ProcedureDefinitionModel) (names : list (option string)),
  getAllFixNamesInUse this = Return names ->
  (In None names <->
   exists d fixName,
     In d (descriptorsOf (_entryPoints this) ++ _body this
           ++ descriptorsOf (_exitPoints this)) /\
     namePortion d = Some fixName /\
     Js.indexOf fixName "#" <> (-1)%Z).
Proof.
  intros this names G.
  destruct (getAllFixNamesInUse_Return_inv this G)
    as [E [B [X [_ [FE [FB [FX ->]]]]]]].
  pose proof (Forall2_app FE (Forall2_app FB FX)) as F.
  rewrite first_occurrences_In, !app_assoc, in_app_iff, <- !app_assoc.
  split.
  - intros [I|I].
    + destruct (Forall2_In_right None F I) as [d [Id R]].
      destruct (_getFixName_Return_inv d R) as [n [En [[Hn _]|[_ Hn]]]];
        [|discriminate].
      exists d, n. auto.
    + apply in_map_iff in I. destruct I as [? [? _]]. discriminate.
  - intros [d [n [Id [En Hn]]]]. left.
    destruct (Forall2_In_left d F Id) as [y [Iy R]].
    rewrite (_getFixName_namePortion d En) in R.
    destruct (Z.eqb_spec (Js.indexOf n "#") (-1)) as [Eq|_]; [contradiction|].
    simpl in R. injection R as <-. exact Iy.
Qed.

Lemma X7_undefined_among_names_iff_directive_witness :
  exists d fixName,
    In d (descriptorsOf (_entryPoints star_model) ++ [FixString "FIX#HDG"]
          ++ descriptorsOf (_exitPoints star_model)) /\
    namePortion d = Some fixName /\
    Js.indexOf fixName "#" <> (-1)%Z.
Proof.
  apply (proj1 (X7_undefined_among_names_iff_directive
                  (set_body [FixString "FIX#HDG"] star_model)
                  (names := [Some "DAG"; Some "MISEN"; Some "TNP"; None;
                             Some "CLARR"; Some "SKEBR"; Some "RELIN"])
                  eq_refl)).
  simpl. tauto.
Defined.

(** X8. After [reset], whatever the object held: [hasEntry] and [hasExit]
    hold exactly for the names every object inherits; for a pair of such
    names the lookup of waypoints returns the empty array, and for an entry
    that is no such name it writes the invalid-entry line (with an empty
    icao) and returns [undefined], while [_generateWaypointsForEntry] throws;
    [getAllFixNamesInUse] throws the draw error, the body has no waypoints,
    and [getRandomExitPoint] returns [undefined]. *)
Theorem X8_queries_after_reset :
  forall (Waypoint : Type) (new_Waypoint : FixDescriptor -> Waypoint)
         (_random : Z -> Z -> Z) (this : ProcedureDefinitionModel)
         (entry exit : string),
  let cleared := fst (reset this) in
  (hasEntry cleared entry = true <-> In entry Obj.prototypeNames) /\
  (hasExit cleared exit = true <-> In exit Obj.prototypeNames) /\
  (In entry Obj.prototypeNames -> In exit Obj.prototypeNames ->
   getWaypointModelsForEntryAndExit new_Waypoint cleared entry exit =
     ([], Return (Some []))) /\
  (~ In entry Obj.prototypeNames ->
   getWaypointModelsForEntryAndExit new_Waypoint cleared entry exit =
     ([String.append "Expected valid entry of , but received " entry],
      Return None) /\
   _generateWaypointsForEntry new_Waypoint cleared entry =
     Throw (TypeError
       (String.append "Expected valid entry of , but received " entry))) /\
  getAllFixNamesInUse cleared =
    Throw (TypeError
      (String.append "Invalid data set in draw segment of the  procedure. Expected a 2D "
      (String.append "array: `[[FIXXA, FIXXB*], [FIXXC, FIXXD*]]`. Please see airport documentation for more information "
       "(https://github.com/openscope/openscope/blob/develop/documentation/airport-format.md#sids)."))) /\
  _generateWaypointsForBody new_Waypoint cleared = Return [] /\
  getRandomExitPoint _random cleared = Return None.
Proof.
  intros Waypoint new_Waypoint _random this entry exit cleared.
  assert (HE : hasEntry cleared entry = true <-> In entry Obj.prototypeNames).
  { unfold hasEntry. rewrite isIn_true. simpl. tauto. }
  assert (HX : hasExit cleared exit = true <-> In exit Obj.prototypeNames).
  { unfold hasExit. rewrite isIn_true. simpl. tauto. }
  split; [exact HE | split; [exact HX|]].
  split; [|split; [|split; [reflexivity | split; [reflexivity|]]]].
  - intros Ie Ix. apply HE in Ie. apply HX in Ix.
    unfold hasEntry in Ie. unfold hasExit in Ix.
    unfold getWaypointModelsForEntryAndExit, _generateWaypointsForEntry,
      _generateWaypointsForExit, _generateWaypointsForBody, Obj.member.
    rewrite Ie, Ix. simpl.
    unfold Obj.isIn in Ie, Ix. simpl in Ie, Ix. rewrite Ie, Ix. reflexivity.
  - intro N.
    assert (He : Obj.isIn entry (_entryPoints cleared) = false)
      by (apply isIn_false; split; [reflexivity | exact N]).
    unfold getWaypointModelsForEntryAndExit, _generateWaypointsForEntry.
    rewrite He. split; reflexivity.
  - unfold getRandomExitPoint, Js.index. simpl.
    destruct (_ <? 0)%Z; [reflexivity|]. now destruct (Z.to_nat _).
Qed.

Lemma X8_queries_after_reset_witness :
  getWaypointModelsForEntryAndExit (fun d => d) (fst (reset star_model))
    "constructor" "toString" = ([], Return (Some [])) /\
  getWaypointModelsForEntryAndExit (fun d => d) (fst (reset star_model))
    "DAG" "19L" =
    (["Expected valid entry of , but received DAG"], Return None).
Proof.
  pose proof (X8_queries_after_reset (fun d => d) (fun lower upper => lower)
                star_model "constructor" "toString") as [_ [_ [Inherited _]]].
  pose proof (X8_queries_after_reset (fun d => d) (fun lower upper => lower)
                star_model "DAG" "19L") as [_ [_ [_ [Absent _]]]].
  split.
  - apply Inherited; simpl; tauto.
  - apply Absent. simpl.
    intros H; repeat destruct H as [H|H]; try discriminate H; exact H.
Defined.

(** X9. A successful [init] overwrites every field: with SID or STAR as the
    procedure type, [init] on any object - whatever it held before - leaves
    and returns exactly the object that the constructor builds from the same
    type and data. *)
Theorem X9_init_leaves_the_constructed_object :
  forall (procedureType : string) (data : RawData.t)
         (this : ProcedureDefinitionModel),
  procedureType = PROCEDURE_TYPE.SID \/ procedureType = PROCEDURE_TYPE.STAR ->
  exists constructed,
    constructor procedureType (Some data) = Return constructed /\
    init procedureType data this = (constructed, Return constructed).
Proof.
  intros procedureType data this [->| ->]; eexists; split; reflexivity.
Qed.

Lemma X9_init_leaves_the_constructed_object_witness :
  init PROCEDURE_TYPE.STAR star_example
    (fst (init PROCEDURE_TYPE.SID vector_example star_model)) =
  (star_model, Return star_model).
Proof.
  destruct (X9_init_leaves_the_constructed_object star_example
              (fst (init PROCEDURE_TYPE.SID vector_example star_model))
              (or_intror eq_refl)) as [constructed [C I]].
  injection C as <-. exact I.
Defined.

(** X10. Whatever index [_.random] yields, a name that [getRandomExitPoint]
    returns is an exit point of the procedure: [hasExit] holds for it, and
    with any entry for which [hasEntry] holds the lookup of waypoints returns
    an array. *)
Theorem X10_random_exit_point_is_an_exit :
  forall (Waypoint : Type) (new_Waypoint : FixDescriptor -> Waypoint)
         (_random : Z -> Z -> Z) (this : ProcedureDefinitionModel)
         (exitName : string),
  getRandomExitPoint _random this = Return (Some exitName) ->
  hasExit this exitName = true /\
  forall entry,
    hasEntry this entry = true ->
    exists waypoints,
      getWaypointModelsForEntryAndExit new_Waypoint this entry exitName =
        ([], Return (Some waypoints)).
Proof.
  intros Waypoint new_Waypoint _random this exitName G.
  assert (Hx : hasExit this exitName = true).
  { unfold getRandomExitPoint, Js.index in G. injection G as G.
    destruct (_ <? 0)%Z; [discriminate|].
    apply nth_error_In in G. apply has_isIn. now apply has_In. }
  split; [exact Hx|]. intros entry He.
  destruct (getWaypointModels_found new_Waypoint this entry exitName He Hx)
    as [e [x [_ [_ W]]]].
  eauto.
Qed.

Lemma X10_random_exit_point_is_an_exit_witness :
  hasExit star_model "19L" = true /\
  exists waypoints,
    getWaypointModelsForEntryAndExit (fun d => d) star_model "DAG" "19L" =
      ([], Return (Some waypoints)).
Proof.
  destruct (@X10_random_exit_point_is_an_exit _ (fun d => d)
              (fun lower upper => lower) star_model "19L" eq_refl) as [Hx W].
  split; [exact Hx | exact (W "DAG" eq_refl)].
Defined.

(** X11. After construction [hasEntry] and [hasExit] answer from the raw
    data and the prototype: they hold for the names every object inherits
    and, besides, a SID has the keys of [rwy] as entries and the keys of
    [exitPoints] as exits, a STAR has the keys of [entryPoints] as entries
    and the keys of [rwy] as exits; so a runway is an entry of the SID
    exactly when it is an exit of the STAR built from the same data. *)
Theorem X11_membership_after_construction :
  forall (data : RawData.t) (key : string),
  exists sid star,
    constructor PROCEDURE_TYPE.SID (Some data) = Return sid /\
    constructor PROCEDURE_TYPE.STAR (Some data) = Return star /\
    (hasEntry sid key = true <->
     In key (Obj.keys (RawData.rwy data)) \/ In key Obj.prototypeNames) /\
    (hasExit sid key = true <->
     In key (Obj.keys (RawData.exitPoints data)) \/ In key Obj.prototypeNames) /\
    (hasEntry star key = true <->
     In key (Obj.keys (RawData.entryPoints data)) \/ In key Obj.prototypeNames) /\
    (hasExit star key = true <->
     In key (Obj.keys (RawData.rwy data)) \/ In key Obj.prototypeNames) /\
    hasEntry sid key = hasExit star key.
Proof.
  intros data key. eexists. eexists.
  split; [reflexivity | split; [reflexivity|]].
  unfold hasEntry, hasExit. simpl.
  repeat (split; [apply isIn_true|]). reflexivity.
Qed.

Section RestrictionFacts.

Lemma _getFixName_withoutRestrictions (d : FixDescriptor) :
  _getFixNameFromRestrictedFixArray (withoutRestrictions d) =
  _getFixNameFromRestrictedFixArray d.
Proof. now destruct d as [s|[|s l]]. Qed.

Lemma _map_map_same {A B : Type} (f : A -> Outcome B) (g : A -> A)
  (array : list A) :
  (forall x, f (g x) = f x) -> _map (map g array) f = _map array f.
Proof.
  intro E. induction array as [|a l IH]; simpl; [reflexivity|].
  now rewrite E, IH.
Qed.

Lemma _forEach_mapSegments {B : Type} (f : FixDescriptor -> Outcome B)
  (g : FixDescriptor -> FixDescriptor) (object : Obj.t (list FixDescriptor))
  (fixNames : list B) :
  (forall d, f (g d) = f d) ->
  _forEach (mapSegments g object) (fun segment fixNames =>
    fixesInSegment <- _map segment f ;;
    Return (fixNames ++ fixesInSegment)) fixNames =
  _forEach object (fun segment fixNames =>
    fixesInSegment <- _map segment f ;;
    Return (fixNames ++ fixesInSegment)) fixNames.
Proof.
  intro E. revert fixNames.
  induction object as [|[k segment] rest IH]; intro fixNames; simpl;
    [reflexivity|].
  rewrite (_map_map_same f g segment E).
  destruct (_map segment f) as [ys|e]; simpl; [apply IH | reflexivity].
Qed.

Lemma keys_mapSegments (g : FixDescriptor -> FixDescriptor)
  (object : Obj.t (list FixDescriptor)) :
  Obj.keys (mapSegments g object) = Obj.keys object.
Proof.
  unfold Obj.keys, mapSegments. rewrite map_map. apply map_ext. now intros [k v].
Qed.

End RestrictionFacts.

(** X12. The restrictions of the descriptors have no part in the fix names
    and in the keys: on the procedure whose array descriptors are replaced by
    their name portions, [getAllFixNamesInUse] gives the same outcome (the
    same list, or the same exception), and [hasEntry], [hasExit] and
    [getRandomExitPoint] give the same answers. *)
Theorem X12_restrictions_do_not_change_names_and_keys :
  forall (_random : Z -> Z -> Z) (this : ProcedureDefinitionModel),
  let bare := mapDescriptors withoutRestrictions this in
  getAllFixNamesInUse bare = getAllFixNamesInUse this /\
  (forall key, hasEntry bare key = hasEntry this key) /\
  (forall key, hasExit bare key = hasExit this key) /\
  getRandomExitPoint _random bare = getRandomExitPoint _random this.
Proof.
  intros _random this bare.
  assert (GE : _getFixNamesFromEntries bare = _getFixNamesFromEntries this).
  { unfold _getFixNamesFromEntries. f_equal.
    apply (_forEach_mapSegments
             (fun restrictedFix => _getFixNameFromRestrictedFixArray restrictedFix)).
    apply _getFixName_withoutRestrictions. }
  assert (GX : _getFixNamesFromExits bare = _getFixNamesFromExits this).
  { unfold _getFixNamesFromExits. f_equal.
    apply (_forEach_mapSegments
             (fun restrictedFix => _getFixNameFromRestrictedFixArray restrictedFix)).
    apply _getFixName_withoutRestrictions. }
  assert (GB : _getFixNamesFromBody bare = _getFixNamesFromBody this).
  { apply (_map_map_same
             (fun restrictedFix => _getFixNameFromRestrictedFixArray restrictedFix)).
    apply _getFixName_withoutRestrictions. }
  split; [|split; [|split]].
  - unfold getAllFixNamesInUse. rewrite GE, GB, GX. reflexivity.
  - intro key. unfold hasEntry, Obj.isIn, Obj.has. do 2 f_equal.
    apply keys_mapSegments.
  - intro key. unfold hasExit, Obj.isIn, Obj.has. do 2 f_equal.
    apply keys_mapSegments.
  - unfold getRandomExitPoint.
    change (Obj.keys (_exitPoints bare))
      with (Obj.keys (mapSegments withoutRestrictions (_exitPoints this))).
    now rewrite keys_mapSegments.
Qed.

(** X13. An object the constructor returns was built from data that is
    there, and its procedure type is the one asked for and is SID or STAR:
    no object with another type, or without data, leaves the constructor.
    Its getters answer with draw, icao and name of the data. *)
Theorem X13_constructed_objects_have_a_known_type :
  forall (requested : string) (rawData : option RawData.t)
         (this : ProcedureDefinitionModel),
  constructor requested rawData = Return this ->
  (requested = PROCEDURE_TYPE.SID \/ requested = PROCEDURE_TYPE.STAR) /\
  procedureType this = requested /\
  exists data,
    rawData = Some data /\
    draw this = RawData.draw data /\
    icao this = RawData.icao data /\
    name this = RawData.name data /\
    _body this = RawData.body data.
Proof.
  intros requested [data|] this; [|discriminate].
  unfold constructor, init. simpl.
  destruct (String.eqb_spec requested PROCEDURE_TYPE.SID) as [->|NSid].
  - simpl. intro H. injection H as <-.
    split; [now left | split; [reflexivity|]]. exists data. repeat split.
  - destruct (String.eqb_spec requested PROCEDURE_TYPE.STAR) as [->|NStar].
    + simpl. intro H. injection H as <-.
      split; [now right | split; [reflexivity|]]. exists data. repeat split.
    + simpl. discriminate.
Qed.

Lemma X13_constructed_objects_have_a_known_type_witness :
  procedureType star_model = PROCEDURE_TYPE.STAR /\
  icao star_model = "KEPEC1".
Proof.
  destruct (@X13_constructed_objects_have_a_known_type
              PROCEDURE_TYPE.STAR (Some star_example) star_model eq_refl)
    as [_ [T [data [D [_ [I _]]]]]].
  injection D as <-. split; [exact T | exact I].
Defined.

(** ** The names collected, against the bare names *)

Section BareNameFacts.

Lemma replace_remove_first (c : ascii) (s : string) :
  Js.replace s (String c "") "" = remove_first c s.
Proof.
  induction s as [|a s IH]; [reflexivity|].
  rewrite replace_char_cons. simpl. now rewrite IH.
Qed.

Lemma remove_first_strip_every (c : ascii) (s : string) :
  occurrences c s <= 1 -> remove_first c s = strip_every c s.
Proof.
  intro O. rewrite <- replace_remove_first. now apply replace_once_strip_every.
Qed.

Lemma bareName_strip_every (fixName : string) :
  occurrences "^" fixName <= 1 -> occurrences "@" fixName <= 1 ->
  bareName fixName = strip_every "@" (strip_every "^" fixName).
Proof.
  intros Hc Ha. unfold bareName.
  rewrite (remove_first_strip_every "^" fixName Hc).
  apply remove_first_strip_every.
  pose proof (occurrences_strip_other "@" "^" fixName). lia.
Qed.

Lemma first_occurrences_map_Some (l : list string) :
  first_occurrences (map Some l) = map Some (first_occurrences l).
Proof.
  induction l as [|a l IH]; simpl; [reflexivity|].
  rewrite IH. f_equal.
  generalize (first_occurrences l) as r.
  induction r as [|b r IHr]; simpl; [reflexivity|].
  destruct (String.eqb a b); simpl; now rewrite IHr.
Qed.

Lemma _getFixName_bareName (d : FixDescriptor) :
  wellFormedDescriptor d = true -> noDirective d = true ->
  exists fixName,
    namePortion d = Some fixName /\
    _getFixNameFromRestrictedFixArray d = Return (Some (bareName fixName)).
Proof.
  unfold wellFormedDescriptor, noDirective.
  destruct (namePortion d) as [fixName|] eqn:E; [|discriminate].
  intros _ N. apply Nat.eqb_eq in N. exists fixName. split; [reflexivity|].
  rewrite (_getFixName_namePortion d E).
  rewrite (proj2 (indexOf_char "#" fixName) N). simpl.
  unfold bareName. now rewrite !replace_remove_first.
Qed.

Lemma _map_bareNames (l : list FixDescriptor) :
  forallb wellFormedDescriptor l = true -> forallb noDirective l = true ->
  _map l (fun restrictedFix => _getFixNameFromRestrictedFixArray restrictedFix) =
    Return (map Some (bareNames l)) /\
  List.length (bareNames l) = List.length l.
Proof.
  induction l as [|d l IH]; simpl; [now split|].
  intros W N. apply andb_prop in W, N. destruct W as [Wd Wl], N as [Nd Nl].
  destruct (_getFixName_bareName d Wd Nd) as [fixName [E G]].
  destruct (IH Wl Nl) as [M L].
  rewrite G, M, E. simpl. split; [reflexivity | now rewrite L].
Qed.

Lemma _forEach_bareNames (object : Obj.t (list FixDescriptor))
  (fixNames : list (option string)) :
  forallb wellFormedDescriptor (descriptorsOf object) = true ->
  forallb noDirective (descriptorsOf object) = true ->
  _forEach object (fun segment fixNames =>
    fixesInSegment <- _map segment (fun restrictedFix =>
      _getFixNameFromRestrictedFixArray restrictedFix) ;;
    Return (fixNames ++ fixesInSegment)) fixNames =
    Return (fixNames ++ map Some (bareNames (descriptorsOf object))) /\
  List.length (bareNames (descriptorsOf object)) =
    List.length (descriptorsOf object).
Proof.
  unfold descriptorsOf. revert fixNames.
  induction object as [|[k segment] rest IH]; intros fixNames W N; simpl in *.
  - rewrite app_nil_r. now split.
  - rewrite forallb_app in W, N. apply andb_prop in W, N.
    destruct W as [Ws Wr], N as [Ns Nr].
    destruct (_map_bareNames segment Ws Ns) as [M L].
    destruct (IH (fixNames ++ map Some (bareNames segment)) Wr Nr) as [F L'].
    rewrite M. simpl. rewrite F. unfold bareNames in *.
    rewrite flat_map_app, map_app, <- app_assoc, !length_app, L, L'.
    now split.
Qed.

End BareNameFacts.

(** C5, as stated, fails on the draw tokens: only the first '*' of a token is
    removed, so a token with two keeps one. With the draw token "FIX*C*" the
    names end with "FIXC*"; the token with its '*' stripped - be it every
    '*' or the trailing one - is not among them. *)
Lemma C5_draw_token_counterexample :
  getAllFixNamesInUse (set_draw [Segment ["FIX*C*"]] star_model) =
    Return [Some "DAG"; Some "MISEN"; Some "TNP"; Some "CLARR"; Some "SKEBR";
            Some "RELIN"; Some "FIXC*"] /\
  ~ In (Some (strip_every "*" "FIX*C*"))
       [Some "DAG"; Some "MISEN"; Some "TNP"; Some "CLARR"; Some "SKEBR";
        Some "RELIN"; Some "FIXC*"] /\
  ~ In (Some (strip_trailing "*" "FIX*C*"))
       [Some "DAG"; Some "MISEN"; Some "TNP"; Some "CLARR"; Some "SKEBR";
        Some "RELIN"; Some "FIXC*"].
Proof.
  split; [reflexivity|].
  split; simpl; intro H; repeat destruct H as [H|H]; try discriminate H; exact H.
Qed.

(** C5, amended. On a well-formed procedure without directives
    [getAllFixNamesInUse] returns names only, collected in this order: with
    [E] the bare names (the name portion without its first '^' and its first
    '@') of the descriptors of all entry segments in key order, [B] those of
    the body descriptors, [X] those of the descriptors of all exit segments,
    one name for every descriptor, and [D] the draw tokens without their
    first '*': the entry step is [E] deduplicated, the body step is [B], the
    exit step is [X] deduplicated, the draw step is [D], and the result is
    the four steps in this order, deduplicated with first occurrences kept -
    which is the deduplication of [E ++ B ++ X ++ D] itself. The result has
    no duplicates and holds exactly the names of the four steps. A name with
    at most one '^' and one '@', and a token with at most one '*', have every
    such character stripped. *)
Theorem C5_fix_names_in_order_without_duplicates :
  forall this : ProcedureDefinitionModel,
  wellFormed this = true ->
  withoutDirectives this = true ->
  let E := bareNames (descriptorsOf (_entryPoints this)) in
  let B := bareNames (_body this) in
  let X := bareNames (descriptorsOf (_exitPoints this)) in
  let D := map (remove_first "*") (drawTokens (_draw this)) in
  let names :=
    first_occurrences (first_occurrences E ++ B ++ first_occurrences X ++ D) in
  List.length E = List.length (descriptorsOf (_entryPoints this)) /\
  List.length B = List.length (_body this) /\
  List.length X = List.length (descriptorsOf (_exitPoints this)) /\
  _getFixNamesFromEntries this = Return (map Some (first_occurrences E)) /\
  _getFixNamesFromBody this = Return (map Some B) /\
  _getFixNamesFromExits this = Return (map Some (first_occurrences X)) /\
  _getFixNamesFromDraw this = Return D /\
  getAllFixNamesInUse this = Return (map Some names) /\
  names = first_occurrences (E ++ B ++ X ++ D) /\
  NoDup names /\ NoDup (map Some names) /\
  (forall fixName, In fixName names <-> In fixName (E ++ B ++ X ++ D)) /\
  (forall fixName,
     occurrences "^" fixName <= 1 -> occurrences "@" fixName <= 1 ->
     bareName fixName = strip_every "@" (strip_every "^" fixName)) /\
  (forall token,
     occurrences "*" token <= 1 ->
     remove_first "*" token = strip_every "*" token).
Proof.
  intros this W N E B X D names.
  unfold wellFormed in W. unfold withoutDirectives in N.
  apply andb_prop in W. destruct W as [W Wx].
  apply andb_prop in W. destruct W as [W Wb].
  apply andb_prop in W. destruct W as [Wd We].
  apply andb_prop in N. destruct N as [N Nx].
  apply andb_prop in N. destruct N as [Ne Nb].
  destruct (_forEach_bareNames (_entryPoints this) [] We Ne) as [FE LE].
  destruct (_map_bareNames (_body this) Wb Nb) as [FB LB].
  destruct (_forEach_bareNames (_exitPoints this) [] Wx Nx) as [FX LX].
  simpl in FE, FX. fold E in FE, LE. fold B in FB, LB. fold X in FX, LX.
  assert (GE : _getFixNamesFromEntries this = Return (map Some (first_occurrences E))).
  { apply (bind_returns _ FE).
    now rewrite _uniq_first_occurrences, first_occurrences_map_Some. }
  assert (GB : _getFixNamesFromBody this = Return (map Some B)) by exact FB.
  assert (GX : _getFixNamesFromExits this = Return (map Some (first_occurrences X))).
  { apply (bind_returns _ FX).
    now rewrite _uniq_first_occurrences, first_occurrences_map_Some. }
  assert (GD : _getFixNamesFromDraw this = Return D).
  { rewrite (_getFixNamesFromDraw_Return this Wd). unfold D. f_equal.
    apply map_ext. intro token. apply (replace_remove_first "*"). }
  assert (GA : getAllFixNamesInUse this = Return (map Some names)).
  { unfold getAllFixNamesInUse. rewrite Wd, GE, GB, GX, GD. simpl.
    rewrite _uniq_first_occurrences, <- !map_app.
    now rewrite first_occurrences_map_Some. }
  assert (S : names = first_occurrences (E ++ B ++ X ++ D))
    by apply first_occurrences_steps.
  repeat (split; [assumption|]).
  split; [apply first_occurrences_NoDup|].
  split.
  { unfold names. rewrite <- first_occurrences_map_Some.
    apply first_occurrences_NoDup. }
  split; [intro fixName; rewrite S; apply first_occurrences_In|].
  split; [apply bareName_strip_every | apply remove_first_strip_every].
Qed.

Lemma C5_fix_names_in_order_without_duplicates_witness :
  wellFormed star_model = true /\ withoutDirectives star_model = true /\
  getAllFixNamesInUse star_model =
    Return (map Some ["DAG"; "MISEN"; "TNP"; "CLARR"; "SKEBR"; "RELIN"]).
Proof.
  split; [reflexivity | split; [reflexivity|]].
  pose proof (C5_fix_names_in_order_without_duplicates star_model eq_refl eq_refl)
    as [_ [_ [_ [_ [_ [_ [_ [G _]]]]]]]].
  exact G.
Defined.
